(** * The logging webhook adapter (src/logging_webhook_adapter.py)

    A shallow embedding of the adapter module and of the parts of the Python
    run time it calls: [str], [repr], [json.dumps] in the configuration the
    module uses ([indent] given, [default=str]), [print] and the [logging]
    calls; with [json.loads], which the specification uses to state the round
    trip.

    Data model.  Python values are references into a heap of objects, so that
    aliasing and self-referential containers are ordinary inputs.  An
    instance of a class carries what its [__str__] and [__repr__] do, which
    may be to raise.  Text is a Rocq [string]; a character stands for the
    code point of the same number (code points below 256).  Floats and bytes
    are not modelled, the recursion limit of the interpreter is not either,
    and an [int] is taken to be one that CPython converts to text: one of at
    most 4300 digits (see [within_int_limit]).  The classes of the host
    framework that the module imports are modelled as far as the module uses
    them.

    Effects.  A hook is a computation that yields the list of its effects on
    the two sinks, in order, and its result or the exception that ends it.

    The file has three parts: the model, the notions used in the statements,
    and the properties: first those the specification states, then further
    properties of the module. *)

From Stdlib Require Import String Ascii List ZArith Lia Bool Arith.
From Stdlib Require Import DecimalString Decimal.
From Stdlib Require DecimalPos DecimalFacts.
Import ListNotations.
Open Scope string_scope.

Set Implicit Arguments.

(** ** Exceptions and outcomes *)

(** The exceptions that occur in the modelled code.  [BaseOnly] stands for a
    [BaseException] that is not an [Exception] ([KeyboardInterrupt],
    [SystemExit]): [except Exception] does not catch it. *)
Inductive exn : Type :=
| TypeError
| ValueError
| RecursionError
| OtherException (name : string)
| BaseOnly (name : string).

Definition is_Exception (e : exn) : bool :=
  match e with
  | BaseOnly _ => false
  | _ => true
  end.

Inductive outcome (A : Type) : Type :=
| Ok (a : A)
| Raise (e : exn).

Arguments Ok {A} a.
Arguments Raise {A} e.

Definition obind {A B} (m : outcome A) (f : A -> outcome B) : outcome B :=
  match m with
  | Ok a => f a
  | Raise e => Raise e
  end.

Definition returns {A} (m : outcome A) : bool :=
  match m with
  | Ok _ => true
  | Raise _ => false
  end.

(** [try: body / except Exception: handler]. *)
Definition try_except_Exception {A} (body : outcome A) (handler : outcome A)
  : outcome A :=
  match body with
  | Ok a => Ok a
  | Raise e => if is_Exception e then handler else Raise e
  end.

(** ** Text helpers *)

Definition chr (n : nat) : string := String (ascii_of_nat n) "".

Definition nl : string := chr 10.

(** [s * n] on strings. *)
Fixpoint str_mul (s : string) (n : nat) : string :=
  match n with
  | O => ""
  | S k => s ++ str_mul s k
  end.

(** [sep.join(parts)]. *)
Fixpoint join (sep : string) (parts : list string) : string :=
  match parts with
  | [] => ""
  | [p] => p
  | p :: rest => p ++ sep ++ join sep rest
  end.

(** [s[:n]]. *)
Definition take (n : nat) (s : string) : string := substring 0 n s.

(** [needle in hay]. *)
Fixpoint contains (needle hay : string) : bool :=
  prefix needle hay ||
  match hay with
  | "" => false
  | String _ rest => contains needle rest
  end.

(** [int.__repr__], for an [int] of at most 4300 digits: CPython refuses to
    convert a longer one ([ValueError]); see [within_int_limit].  A length,
    which is what the module itself converts, is below [2**63]. *)
Definition int_repr (z : Z) : string := NilZero.string_of_int (Z.to_int z).

Definition hex_digit (n : nat) : ascii :=
  nth n (list_ascii_of_string "0123456789abcdef") "0"%char.

Definition hex2 (n : nat) : string :=
  String (hex_digit (n / 16)) (String (hex_digit (n mod 16)) "").

Fixpoint str_any (p : ascii -> bool) (s : string) : bool :=
  match s with
  | "" => false
  | String c rest => p c || str_any p rest
  end.

Fixpoint str_concat_map (f : ascii -> string) (s : string) : string :=
  match s with
  | "" => ""
  | String c rest => f c ++ str_concat_map f rest
  end.

(** [str.__repr__]: the quote is the apostrophe unless the text has an
    apostrophe and no double quote; the quote and the backslash are escaped,
    tab, line feed and carriage return have their letters, and the other
    non-printable code points are written [\xhh] (below 256 these are the
    controls, 0x7f to 0xa0, and 0xad). *)
Definition repr_char (quote : ascii) (c : ascii) : string :=
  let n := nat_of_ascii c in
  if (Ascii.eqb c quote || Ascii.eqb c "\"%char)%bool then String "\"%char (String c "")
  else if (n =? 9)%nat then "\t"
  else if (n =? 10)%nat then "\n"
  else if (n =? 13)%nat then "\r"
  else if (n <? 32)%nat || ((127 <=? n)%nat && (n <=? 160)%nat) || (n =? 173)%nat
       then "\x" ++ hex2 n
  else String c "".

Definition str_repr (s : string) : string :=
  let apostrophe := "'"%char in
  let dquote := ascii_of_nat 34 in
  let quote :=
    if str_any (Ascii.eqb apostrophe) s && negb (str_any (Ascii.eqb dquote) s)
    then dquote else apostrophe in
  String quote (str_concat_map (repr_char quote) s ++ String quote "").

(** [json.encoder.py_encode_basestring_ascii]: the text between double
    quotes, with [ESCAPE_DCT] applied to the backslash, the double quote and
    every code point outside the range from the space to the tilde. *)
Definition json_escape_char (c : ascii) : string :=
  let n := nat_of_ascii c in
  if (n =? 92)%nat then "\\"
  else if (n =? 34)%nat then String "\"%char (chr 34)
  else if (n =? 8)%nat then "\b"
  else if (n =? 12)%nat then "\f"
  else if (n =? 10)%nat then "\n"
  else if (n =? 13)%nat then "\r"
  else if (n =? 9)%nat then "\t"
  else if (n <? 32)%nat || (126 <? n)%nat then "\u00" ++ hex2 n
  else String c "".

Definition encode_basestring_ascii (s : string) : string :=
  chr 34 ++ str_concat_map json_escape_char s ++ chr 34.

(** ** Values and the heap *)

Definition loc := nat.

Inductive value : Type :=
| VNone
| VBool (b : bool)
| VInt (z : Z)
| VStr (s : string)
| VRef (l : loc).

(** An instance of a class other than the built-in ones: the class name, the
    instance [__dict__] when it has one, the attributes found through the
    class (class attributes, slots), what [__str__] and [__repr__] do, and
    its truth value. *)
Record instance : Type := {
  cls_name : string;
  inst_dict : option (list (string * value));
  cls_attrs : list (string * value);
  str_result : outcome string;
  repr_result : outcome string;
  truthy : bool
}.

Inductive hobj : Type :=
| HList (items : list value)
| HTuple (items : list value)
| HDict (entries : list (value * value))
| HInst (i : instance).

Definition heap := list hobj.

(** A location past the end of the heap holds an empty list, so that every
    pair of a heap and a value is a Python object graph. *)
Definition deref (h : heap) (l : loc) : hobj := nth l h (HList []).

Definition is_empty {A} (xs : list A) : bool :=
  match xs with
  | [] => true
  | _ :: _ => false
  end.

Definition on_path (l : loc) (path : list loc) : bool :=
  existsb (Nat.eqb l) path.

(** ** Traversals of the object graph

    [repr] and the JSON encoder recurse through containers and stop at a
    container that is already being traversed ([Py_ReprEnter], the encoder's
    [markers]).  The recursion is on a fuel counter; [None] is fuel
    exhaustion, and [fuel_enough] below shows that the heap size is always
    enough fuel. *)

Definition fueled (A : Type) : Type := option (outcome A).

Definition fret {A} (a : A) : fueled A := Some (Ok a).

Definition fbind {A B} (m : fueled A) (f : A -> fueled B) : fueled B :=
  match m with
  | None => None
  | Some (Raise e) => Some (Raise e)
  | Some (Ok a) => f a
  end.

(** The elements in order, stopping at the first that raises. *)
Fixpoint fmap_seq {A B} (f : A -> fueled B) (xs : list A) : fueled (list B) :=
  match xs with
  | [] => fret []
  | x :: rest =>
      fbind (f x) (fun y => fbind (fmap_seq f rest) (fun ys => fret (y :: ys)))
  end.

Section Traversals.

Variable h : heap.

(** [repr(v)], with [path] the containers being traversed. *)
Fixpoint repr_from (fuel : nat) (path : list loc) (v : value) {struct fuel}
  : fueled string :=
  match v with
  | VNone => fret "None"
  | VBool true => fret "True"
  | VBool false => fret "False"
  | VInt z => fret (int_repr z)
  | VStr s => fret (str_repr s)
  | VRef l =>
      match deref h l with
      | HInst i => Some (repr_result i)
      | HList items =>
          if is_empty items then fret "[]"
          else if on_path l path then fret "[...]"
          else match fuel with
               | O => None
               | S f =>
                   fbind (fmap_seq (repr_from f (l :: path)) items)
                     (fun parts => fret ("[" ++ join ", " parts ++ "]"))
               end
      | HTuple items =>
          if is_empty items then fret "()"
          else if on_path l path then fret "(...)"
          else match fuel with
               | O => None
               | S f =>
                   fbind (fmap_seq (repr_from f (l :: path)) items)
                     (fun parts =>
                        match parts with
                        | [p] => fret ("(" ++ p ++ ",)")
                        | _ => fret ("(" ++ join ", " parts ++ ")")
                        end)
               end
      | HDict entries =>
          if on_path l path then fret "{...}"
          else if is_empty entries then fret "{}"
          else match fuel with
               | O => None
               | S f =>
                   fbind (fmap_seq
                            (fun kv =>
                               fbind (repr_from f (l :: path) (fst kv)) (fun ks =>
                               fbind (repr_from f (l :: path) (snd kv)) (fun vs =>
                               fret (ks ++ ": " ++ vs))))
                            entries)
                     (fun parts => fret ("{" ++ join ", " parts ++ "}"))
               end
      end
  end.

(** The key conversion of [_iterencode_dict]; [skipkeys] is false. *)
Definition json_key (k : value) : outcome string :=
  match k with
  | VStr s => Ok s
  | VBool true => Ok "true"
  | VBool false => Ok "false"
  | VNone => Ok "null"
  | VInt z => Ok (int_repr z)
  | VRef _ => Raise TypeError
  end.

(** [_iterencode(o, level)] of [json.encoder._make_iterencode], chunks
    joined, for [indent] the text of one indentation step, the separators
    [(',', ': ')] and [default=str]. *)
Fixpoint iterencode (indent : string) (fuel : nat) (path : list loc)
         (level : nat) (o : value) {struct fuel} : fueled string :=
  match o with
  | VStr s => fret (encode_basestring_ascii s)
  | VNone => fret "null"
  | VBool true => fret "true"
  | VBool false => fret "false"
  | VInt z => fret (int_repr z)
  | VRef l =>
      match deref h l with
      | HList items | HTuple items =>
          if is_empty items then fret "[]"
          else if on_path l path then Some (Raise ValueError)
          else match fuel with
               | O => None
               | S f =>
                   let newline_indent := nl ++ str_mul indent (S level) in
                   let separator := "," ++ newline_indent in
                   fbind (fmap_seq (iterencode indent f (l :: path) (S level)) items)
                     (fun chunks =>
                        fret ("[" ++ newline_indent ++ join separator chunks
                                  ++ nl ++ str_mul indent level ++ "]"))
               end
      | HDict entries =>
          if is_empty entries then fret "{}"
          else if on_path l path then Some (Raise ValueError)
          else match fuel with
               | O => None
               | S f =>
                   let newline_indent := nl ++ str_mul indent (S level) in
                   let item_separator := "," ++ newline_indent in
                   fbind (fmap_seq
                            (fun kv =>
                               fbind (Some (json_key (fst kv))) (fun key =>
                               fbind (iterencode indent f (l :: path) (S level) (snd kv))
                                 (fun chunk =>
                               fret (encode_basestring_ascii key ++ ": " ++ chunk))))
                            entries)
                     (fun chunks =>
                        fret ("{" ++ newline_indent ++ join item_separator chunks
                                  ++ nl ++ str_mul indent level ++ "}"))
               end
      | HInst i =>
          (* o = _default(o), here str(o), then the text is encoded *)
          Some (obind (str_result i) (fun s => Ok (encode_basestring_ascii s)))
      end
  end.

Definition run_fueled {A} (m : fueled A) : outcome A :=
  match m with
  | Some r => r
  | None => Raise RecursionError
  end.

(** [repr(v)]. *)
Definition py_repr (v : value) : outcome string :=
  run_fueled (repr_from (length h) [] v).

(** [str(v)]: the text itself for a [str], [__str__] for an instance, and
    [repr] for the built-in types that do not define [__str__]. *)
Definition py_str (v : value) : outcome string :=
  match v with
  | VStr s => Ok s
  | VRef l =>
      match deref h l with
      | HInst i => str_result i
      | _ => py_repr v
      end
  | _ => py_repr v
  end.

(** [json.dumps(data, indent=indent, default=str)]; an integer [indent]
    becomes [' ' * indent]. *)
Definition json_dumps (data : value) (indent : Z) : outcome string :=
  run_fueled (iterencode (str_mul " " (Z.to_nat indent)) (length h) [] 0 data).

(** [isinstance(data, (dict, list))]. *)
Definition is_dict_or_list (data : value) : bool :=
  match data with
  | VRef l =>
      match deref h l with
      | HList _ | HDict _ => true
      | _ => false
      end
  | _ => false
  end.

(** [_format_payload(data, indent)]. *)
Definition _format_payload (data : value) (indent : Z) : outcome string :=
  try_except_Exception
    (if is_dict_or_list data
     then json_dumps data indent
     else py_str data)
    (py_str data).

End Traversals.

(** ** More of the run time: truth, types, attributes, iteration *)

Section Runtime.

Variable h : heap.

(** [bool(v)]. *)
Definition py_truthy (v : value) : bool :=
  match v with
  | VNone => false
  | VBool b => b
  | VInt z => negb (Z.eqb z 0)
  | VStr s => negb (String.eqb s "")
  | VRef l =>
      match deref h l with
      | HList items | HTuple items => negb (is_empty items)
      | HDict entries => negb (is_empty entries)
      | HInst i => truthy i
      end
  end.

(** [type(v).__name__]. *)
Definition type_name (v : value) : string :=
  match v with
  | VNone => "NoneType"
  | VBool _ => "bool"
  | VInt _ => "int"
  | VStr _ => "str"
  | VRef l =>
      match deref h l with
      | HList _ => "list"
      | HTuple _ => "tuple"
      | HDict _ => "dict"
      | HInst i => cls_name i
      end
  end.

(** [isinstance(v, dict)] with the items, and [isinstance(v, str)]. *)
Definition as_dict (v : value) : option (list (value * value)) :=
  match v with
  | VRef l =>
      match deref h l with
      | HDict entries => Some entries
      | _ => None
      end
  | _ => None
  end.

Definition as_str (v : value) : option string :=
  match v with
  | VStr s => Some s
  | _ => None
  end.

Fixpoint assoc {V} (name : string) (d : list (string * V)) : option V :=
  match d with
  | [] => None
  | (k, v) :: rest => if String.eqb k name then Some v else assoc name rest
  end.

(** [vars(v)] when [hasattr(v, '__dict__')]. *)
Definition py_vars (v : value) : option (list (string * value)) :=
  match v with
  | VRef l =>
      match deref h l with
      | HInst i => inst_dict i
      | _ => None
      end
  | _ => None
  end.

(** Attribute lookup for the names the module asks for: the instance
    dictionary, then the class.  The built-in types have none of them. *)
Definition py_getattr (v : value) (name : string) : option value :=
  match v with
  | VRef l =>
      match deref h l with
      | HInst i =>
          match inst_dict i with
          | Some d =>
              match assoc name d with
              | Some x => Some x
              | None => assoc name (cls_attrs i)
              end
          | None => assoc name (cls_attrs i)
          end
      | _ => None
      end
  | _ => None
  end.

(** [hasattr(v, name)]. *)
Definition hasattr (v : value) (name : string) : bool :=
  match py_getattr v name with
  | Some _ => true
  | None => false
  end.

(** [getattr(v, name, default)]. *)
Definition getattr (v : value) (name : string) (default : value) : value :=
  match py_getattr v name with
  | Some x => x
  | None => default
  end.

Fixpoint chars_of (s : string) : list value :=
  match s with
  | "" => []
  | String c rest => VStr (String c "") :: chars_of rest
  end.

(** The elements a [for] loop over [v] visits. *)
Definition py_iter (v : value) : outcome (list value) :=
  match v with
  | VStr s => Ok (chars_of s)
  | VRef l =>
      match deref h l with
      | HList items | HTuple items => Ok items
      | HDict entries => Ok (map fst entries)
      | HInst _ => Raise TypeError
      end
  | _ => Raise TypeError
  end.

End Runtime.

(** ** Equality of values *)

Section Equality.

Variable h : heap.


(** All the pairs of elements at the same position satisfy [p]; the first
    that does not ends the comparison. *)
Fixpoint all2 (p : value -> value -> option bool) (xs ys : list value)
  : option bool :=
  match xs, ys with
  | [], [] => Some true
  | x :: xs', y :: ys' =>
      match p x y with
      | Some true => all2 p xs' ys'
      | r => r
      end
  | _, _ => Some false
  end.




End Equality.

(** ** Effects: the two sinks *)

Inductive severity : Type := Info | Error.

(** What the adapter does to the outside, in order: [Print text] is
    [print(text)] (the text and a newline written to standard output),
    [FlushStdout] a flush of standard output, [LogRecord] a call of a method
    of the module logger, and [SetSelfContext] the assignment
    [self.context = context]. *)
Inductive event : Type :=
| Print (text : string)
| FlushStdout
| LogRecord (level : severity) (msg : string) (exc_info : bool)
| SetSelfContext (context : value).

(** A computation: the events it performs, and its result or the exception
    that ended it. *)
Definition M (A : Type) : Type := (list event * outcome A)%type.

Definition ret {A} (a : A) : M A := ([], Ok a).

Definition bind {A B} (m : M A) (f : A -> M B) : M B :=
  match m with
  | (t1, Ok a) => let (t2, r) := f a in ((t1 ++ t2)%list, r)
  | (t1, Raise e) => (t1, Raise e)
  end.

Definition lift {A} (o : outcome A) : M A := ([], o).

Definition emit (e : event) : M unit := ([e], Ok tt).

Declare Scope py_scope.
Delimit Scope py_scope with py.
Notation "x <- m ;; k" := (bind m (fun x => k))
  (at level 61, m at next level, right associativity) : py_scope.
Notation "m ;; k" := (bind m (fun _ => k))
  (at level 61, right associativity) : py_scope.
Open Scope py_scope.

(** [for x in xs: body(x)]. *)
Fixpoint for_each {A} (xs : list A) (body : A -> M unit) : M unit :=
  match xs with
  | [] => ret tt
  | x :: rest => body x ;; for_each rest body
  end.

Definition when (b : bool) (m : M unit) : M unit :=
  if b then m else ret tt.

Definition events {A} (m : M A) : list event := fst m.
Definition result {A} (m : M A) : outcome A := snd m.

Fixpoint console_texts (t : list event) : list string :=
  match t with
  | [] => []
  | Print s :: rest => s :: console_texts rest
  | _ :: rest => console_texts rest
  end.

Fixpoint logger_texts (t : list event) : list string :=
  match t with
  | [] => []
  | LogRecord _ s _ :: rest => s :: logger_texts rest
  | _ :: rest => logger_texts rest
  end.

(** Every [Print] is followed at once by a flush of standard output. *)
Fixpoint flushed_at_once (t : list event) : bool :=
  match t with
  | [] => true
  | Print _ :: rest =>
      match rest with
      | FlushStdout :: _ => flushed_at_once rest
      | _ => false
      end
  | _ :: rest => flushed_at_once rest
  end.

(** ** The module *)

Definition SEPARATOR_THICK : string := str_mul "=" 80.
Definition SEPARATOR_THIN : string := str_mul "-" 80.
Definition ARROW_IN : string := str_mul ">" 80.
Definition ARROW_OUT : string := str_mul "<" 80.
Definition BANNER_START : string :=
  nl ++ str_mul "#" 80 ++ nl ++ "#" ++ str_mul " " 30 ++ "GATEWAY EVENT"
     ++ str_mul " " 35 ++ "#" ++ nl ++ str_mul "#" 80.

(** [_log_and_print(message, level)]; the module calls it with the levels
    ["info"] (the default) and ["error"] only. *)
Definition _log_and_print (message : string) (level : severity) : M unit :=
  emit (Print message) ;; emit FlushStdout ;;
  emit FlushStdout ;;
  emit (LogRecord level message false).

(** The module imports the class [SamTask] (line 19) and the function
    [create_text_part] (line 113) from the host framework; src/ does not
    hold them. *)

(** Modelled from the spec: a content part that holds a text, and
    [create_text_part], which makes one. *)
Record TextPart : Type := { text : string }.

Definition create_text_part (s : string) : TextPart := {| text := s |}.

(** Modelled from the spec: the class [SamTask], "a task descriptor with a
    target-agent identifier and a sequence of content parts".  In the
    framework the sequence of parts is the field [parts]; the fields with a
    default value are left out. *)
Record SamTask : Type := {
  parts : list TextPart;
  target_agent : string
}.

(** The value of a keyword argument of a call. *)
Inductive argument : Type :=
| ArgText (s : string)
| ArgParts (ps : list TextPart)
| ArgMapping (m : list (string * string)).

(** Modelled from the spec: the call [SamTask(name=value, ...)].  The class
    validates its fields: [parts] and [target_agent] are required, a keyword
    that names no field is ignored, and a required field that is missing or
    of another type raises [ValidationError]. *)
Definition new_SamTask (kwargs : list (string * argument)) : outcome SamTask :=
  match assoc "parts" kwargs, assoc "target_agent" kwargs with
  | Some (ArgParts ps), Some (ArgText agent) =>
      Ok {| parts := ps; target_agent := agent |}
  | _, _ => Raise (OtherException "ValidationError")
  end.

(** [task.content]: the class has neither a field nor an attribute of that
    name. *)
Definition task_content (task : SamTask) : outcome (list TextPart) :=
  Raise (OtherException "AttributeError").

Section Adapter.

Variable h : heap.

(** A replacement field [{v}] of an f-string. *)
Definition fmt (v : value) : M string := lift (py_str h v).

Definition init (context : value) : M unit :=
  emit (SetSelfContext context) ;;
  _log_and_print (nl ++ SEPARATOR_THICK) Info ;;
  _log_and_print "    LOGGING WEBHOOK ADAPTER INITIALIZED" Info ;;
  gid <- fmt (getattr h context "gateway_id" (VStr "unknown")) ;;
  _log_and_print ("    Gateway ID: " ++ gid) Info ;;
  _log_and_print (SEPARATOR_THICK ++ nl) Info.

(** The body of the loop over [external_input.items()]. *)
Definition log_breakdown_entry (entry : value * value) : M unit :=
  let (key, value) := entry in
  formatted_val <- lift (_format_payload h value 2) ;;
  let formatted_val :=
    if (500 <? String.length formatted_val)%nat
    then take 500 formatted_val ++ "... [TRUNCATED]"
    else formatted_val in
  key <- fmt key ;;
  _log_and_print ("      " ++ key ++ ": " ++ formatted_val) Info.

Definition prepare_task (external_input endpoint_context : value) : M SamTask :=
  _log_and_print BANNER_START Info ;;
  _log_and_print (nl ++ SEPARATOR_THICK) Info ;;
  _log_and_print ARROW_IN Info ;;
  _log_and_print "    INCOMING WEBHOOK REQUEST RECEIVED" Info ;;
  _log_and_print ARROW_IN Info ;;
  _log_and_print SEPARATOR_THIN Info ;;
  when (py_truthy h endpoint_context)
    (_log_and_print (nl ++ "    ENDPOINT CONTEXT:") Info ;;
     s <- lift (_format_payload h endpoint_context 2) ;;
     _log_and_print s Info ;;
     _log_and_print SEPARATOR_THIN Info) ;;
  _log_and_print (nl ++ "    RAW EXTERNAL INPUT PAYLOAD:") Info ;;
  _log_and_print SEPARATOR_THIN Info ;;
  s <- lift (_format_payload h external_input 2) ;;
  _log_and_print s Info ;;
  _log_and_print SEPARATOR_THIN Info ;;
  match as_dict h external_input with
  | Some items =>
      _log_and_print (nl ++ "    PAYLOAD BREAKDOWN:") Info ;;
      for_each items log_breakdown_entry
  | None => ret tt
  end ;;
  _log_and_print (nl ++ ARROW_IN) Info ;;
  _log_and_print (SEPARATOR_THICK ++ nl) Info ;;
  task_text <-
    match as_str external_input with
    | Some s => ret s
    | None => lift (_format_payload h external_input 2)
    end ;;
  task <- lift (new_SamTask
                  [ ("target_agent", ArgText "OrchestratorAgent");
                    ("content", ArgParts [create_text_part task_text]);
                    ("metadata", ArgMapping [("source", "logging_webhook_adapter")]) ]) ;;
  _log_and_print (nl ++ SEPARATOR_THIN) Info ;;
  _log_and_print "    PREPARED SAM TASK:" Info ;;
  _log_and_print ("      Target Agent: " ++ target_agent task) Info ;;
  content <- lift (task_content task) ;;
  _log_and_print ("      Content Parts: "
                    ++ int_repr (Z.of_nat (length content))) Info ;;
  _log_and_print (SEPARATOR_THIN ++ nl) Info ;;
  ret task.

(** The body of the loop over [vars(update).items()]. *)
Definition log_attribute (attr : string * value) : M unit :=
  let (attr_name, attr_value) := attr in
  if negb (prefix "_" attr_name) then
    formatted_value <- lift (_format_payload h attr_value 2) ;;
    if (2000 <? String.length formatted_value)%nat then
      _log_and_print ("      " ++ attr_name ++ " (truncated):") Info ;;
      _log_and_print ("        " ++ take 2000 formatted_value ++ "...") Info ;;
      _log_and_print ("        [Total length: "
                        ++ int_repr (Z.of_nat (String.length formatted_value))
                        ++ " chars]") Info
    else
      _log_and_print ("      " ++ attr_name ++ ":") Info ;;
      _log_and_print ("        " ++ formatted_value) Info
  else ret tt.

(** [hasattr(update, name) and update.name]. *)
Definition has_truthy (update : value) (name : string) : bool :=
  hasattr h update name && py_truthy h (getattr h update name VNone).

Definition handle_update (update context : value) : M unit :=
  _log_and_print BANNER_START Info ;;
  _log_and_print (nl ++ SEPARATOR_THICK) Info ;;
  _log_and_print ARROW_OUT Info ;;
  _log_and_print "    AGENT MESH RESPONSE/UPDATE RECEIVED" Info ;;
  _log_and_print ARROW_OUT Info ;;
  _log_and_print SEPARATOR_THIN Info ;;
  let update_type := type_name h update in
  _log_and_print (nl ++ "    UPDATE TYPE: " ++ update_type) Info ;;
  _log_and_print (nl ++ "    RESPONSE CONTEXT:") Info ;;
  sid <- fmt (getattr h context "session_id" (VStr "N/A")) ;;
  _log_and_print ("      Session ID: " ++ sid) Info ;;
  tid <- fmt (getattr h context "task_id" (VStr "N/A")) ;;
  _log_and_print ("      Task ID: " ++ tid) Info ;;
  uid <- fmt (getattr h context "user_id" (VStr "N/A")) ;;
  _log_and_print ("      User ID: " ++ uid) Info ;;
  _log_and_print (nl ++ SEPARATOR_THIN) Info ;;
  _log_and_print "    UPDATE DETAILS:" Info ;;
  match py_vars h update with
  | Some attrs => for_each attrs log_attribute
  | None =>
      s <- lift (_format_payload h update 2) ;;
      _log_and_print ("      Raw Update: " ++ s) Info
  end ;;
  when (has_truthy update "text")
    (_log_and_print (nl ++ SEPARATOR_THIN) Info ;;
     _log_and_print "    TEXT CONTENT:" Info ;;
     s <- fmt (getattr h update "text" VNone) ;;
     _log_and_print ("      " ++ s) Info) ;;
  when (has_truthy update "status")
    (_log_and_print (nl ++ SEPARATOR_THIN) Info ;;
     s <- fmt (getattr h update "status" VNone) ;;
     _log_and_print ("    STATUS: " ++ s) Info) ;;
  when (has_truthy update "error")
    (_log_and_print (nl ++ SEPARATOR_THIN) Info ;;
     s <- fmt (getattr h update "error" VNone) ;;
     _log_and_print ("    ERROR: " ++ s) Info) ;;
  when (has_truthy update "artifacts")
    (_log_and_print (nl ++ SEPARATOR_THIN) Info ;;
     _log_and_print "    ARTIFACTS:" Info ;;
     artifacts <- lift (py_iter h (getattr h update "artifacts" VNone)) ;;
     for_each artifacts (fun artifact =>
       s <- lift (_format_payload h artifact 2) ;;
       _log_and_print ("      - " ++ s) Info)) ;;
  _log_and_print (nl ++ ARROW_OUT) Info ;;
  _log_and_print (SEPARATOR_THICK ++ nl) Info.

Definition on_task_complete (context : value) : M unit :=
  _log_and_print (nl ++ SEPARATOR_THICK) Info ;;
  _log_and_print "    TASK COMPLETED" Info ;;
  sid <- fmt (getattr h context "session_id" (VStr "N/A")) ;;
  _log_and_print ("      Session ID: " ++ sid) Info ;;
  tid <- fmt (getattr h context "task_id" (VStr "N/A")) ;;
  _log_and_print ("      Task ID: " ++ tid) Info ;;
  _log_and_print (SEPARATOR_THICK ++ nl) Info.

Definition on_error (error context : value) : M unit :=
  _log_and_print (nl ++ SEPARATOR_THICK) Error ;;
  _log_and_print "    ERROR IN GATEWAY PROCESSING" Error ;;
  _log_and_print SEPARATOR_THIN Error ;;
  _log_and_print ("    Error Type: " ++ type_name h error) Error ;;
  msg <- lift (py_str h error) ;;
  _log_and_print ("    Error Message: " ++ msg) Error ;;
  when (py_truthy h context)
    (sid <- fmt (getattr h context "session_id" (VStr "N/A")) ;;
     _log_and_print ("    Context Session ID: " ++ sid) Error ;;
     tid <- fmt (getattr h context "task_id" (VStr "N/A")) ;;
     _log_and_print ("    Context Task ID: " ++ tid) Error) ;;
  _log_and_print (SEPARATOR_THICK ++ nl) Error ;;
  emit (LogRecord Error "Full traceback:" true).

End Adapter.

(** ** JSON documents

    What the structured text stands for, and [json.loads] on the texts that
    hold no floats. *)

#[warnings="-register-all"]
Inductive json : Type :=
| JNull
| JBool (b : bool)
| JInt (z : Z)
| JStr (s : string)
| JArr (items : list json)
| JObj (members : list (string * json)).

(** The layout of a document: [indent] is the text of one indentation step,
    [level] the nesting level; an item of a container is on a line of its
    own, one step deeper than the container, and the closing bracket is on a
    line of its own at the level of the container. *)
Fixpoint render (indent : string) (level : nat) (d : json) : string :=
  match d with
  | JNull => "null"
  | JBool true => "true"
  | JBool false => "false"
  | JInt z => int_repr z
  | JStr s => encode_basestring_ascii s
  | JArr [] => "[]"
  | JArr items =>
      let line := nl ++ str_mul indent (S level) in
      "[" ++ line ++ join ("," ++ line) (map (render indent (S level)) items)
          ++ nl ++ str_mul indent level ++ "]"
  | JObj [] => "{}"
  | JObj members =>
      let line := nl ++ str_mul indent (S level) in
      "{" ++ line
          ++ join ("," ++ line)
               (map (fun kv => encode_basestring_ascii (fst kv) ++ ": "
                                 ++ render indent (S level) (snd kv)) members)
          ++ nl ++ str_mul indent level ++ "}"
  end.

Section Documents.

Variable h : heap.

(** The document a value is serialized as: a tuple counts as a list, a key
    that is [None], a [bool] or an [int] is written as text, and a leaf that
    JSON cannot hold is replaced by its [str].  There is none for a container
    that contains itself ([ValueError]), for a dict with other keys
    ([TypeError]), and when a [__str__] raises. *)
Fixpoint document (fuel : nat) (path : list loc) (v : value) {struct fuel}
  : fueled json :=
  match v with
  | VNone => fret JNull
  | VBool b => fret (JBool b)
  | VInt z => fret (JInt z)
  | VStr s => fret (JStr s)
  | VRef l =>
      match deref h l with
      | HList items | HTuple items =>
          if is_empty items then fret (JArr [])
          else if on_path l path then Some (Raise ValueError)
          else match fuel with
               | O => None
               | S f =>
                   fbind (fmap_seq (document f (l :: path)) items)
                     (fun ds => fret (JArr ds))
               end
      | HDict entries =>
          if is_empty entries then fret (JObj [])
          else if on_path l path then Some (Raise ValueError)
          else match fuel with
               | O => None
               | S f =>
                   fbind (fmap_seq
                            (fun kv =>
                               fbind (Some (json_key (fst kv))) (fun key =>
                               fbind (document f (l :: path) (snd kv)) (fun d =>
                               fret (key, d))))
                            entries)
                     (fun ms => fret (JObj ms))
               end
      | HInst i => Some (obind (str_result i) (fun s => Ok (JStr s)))
      end
  end.

(** [parsed == v]: the parsed document and the value are the same data. *)
Fixpoint same_data (d : json) (v : value) {struct d} : bool :=
  match d, v with
  | JNull, VNone => true
  | JBool b, VBool b' => Bool.eqb b b'
  | JInt z, VInt z' => Z.eqb z z'
  | JStr s, VStr s' => String.eqb s s'
  | JArr ds, VRef l =>
      match deref h l with
      | HList items =>
          (fix all2 (ds : list json) (items : list value) {struct ds} : bool :=
             match ds, items with
             | [], [] => true
             | d' :: ds', x :: items' => same_data d' x && all2 ds' items'
             | _, _ => false
             end) ds items
      | _ => false
      end
  | JObj ms, VRef l =>
      match deref h l with
      | HDict entries =>
          (fix all2 (ms : list (string * json)) (entries : list (value * value))
               {struct ms} : bool :=
             match ms, entries with
             | [], [] => true
             | (k, d') :: ms', (VStr k', x) :: entries' =>
                 String.eqb k k' && same_data d' x && all2 ms' entries'
             | _, _ => false
             end) ms entries
      | _ => false
      end
  | _, _ => false
  end.

End Documents.

(** *** The decoder *)

Definition is_ws (c : ascii) : bool :=
  let n := nat_of_ascii c in
  (n =? 32)%nat || (n =? 9)%nat || (n =? 10)%nat || (n =? 13)%nat.

Fixpoint skip_ws (s : string) : string :=
  match s with
  | String c rest => if is_ws c then skip_ws rest else s
  | "" => ""
  end.

Definition is_digit (c : ascii) : bool :=
  let n := nat_of_ascii c in (48 <=? n)%nat && (n <=? 57)%nat.

Definition hex_value (c : ascii) : option nat :=
  let n := nat_of_ascii c in
  if (48 <=? n)%nat && (n <=? 57)%nat then Some (n - 48)
  else if (97 <=? n)%nat && (n <=? 102)%nat then Some (n - 87)
  else if (65 <=? n)%nat && (n <=? 70)%nat then Some (n - 55)
  else None.

(** The characters of a string literal after its opening quote, up to the
    closing quote, and the text after it.  Control characters are refused
    ([strict]); an escape [\uXXXX] must name a code point below 256. *)
Fixpoint scan_string (s : string) : option (string * string) :=
  match s with
  | "" => None
  | String c rest =>
      let n := nat_of_ascii c in
      if (n =? 34)%nat then Some ("", rest)
      else if (n =? 92)%nat then
        match rest with
        | "" => None
        | String e rest' =>
            let simple (x : nat) :=
              match scan_string rest' with
              | Some (body, after) => Some (String (ascii_of_nat x) body, after)
              | None => None
              end in
            match nat_of_ascii e with
            | 34 => simple 34
            | 92 => simple 92
            | 47 => simple 47
            | 98 => simple 8
            | 102 => simple 12
            | 110 => simple 10
            | 114 => simple 13
            | 116 => simple 9
            | 117 =>
                match rest' with
                | String h1 (String h2 (String h3 (String h4 rest''))) =>
                    match hex_value h1, hex_value h2, hex_value h3, hex_value h4 with
                    | Some 0, Some 0, Some a, Some b =>
                        match scan_string rest'' with
                        | Some (body, after) =>
                            Some (String (ascii_of_nat (16 * a + b)) body, after)
                        | None => None
                        end
                    | _, _, _, _ => None
                    end
                | _ => None
                end
            | _ => None
            end
        end
      else if (n <? 32)%nat then None
      else
        match scan_string rest with
        | Some (body, after) => Some (String c body, after)
        | None => None
        end
  end.

(** The digits at the start of the text, as a number, with their count and
    the text after them. *)
Fixpoint scan_digits (acc : Z) (count : nat) (s : string) : Z * nat * string :=
  match s with
  | String c rest =>
      if is_digit c
      then scan_digits (10 * acc + Z.of_nat (nat_of_ascii c - 48)) (S count) rest
      else (acc, count, s)
  | "" => (acc, count, s)
  end.

Definition starts_fraction (s : string) : bool :=
  match s with
  | String c _ =>
      let n := nat_of_ascii c in (n =? 46)%nat || (n =? 101)%nat || (n =? 69)%nat
  | "" => false
  end.

(** The text after the character [c], when the text starts with it. *)
Definition starts_with (c : ascii) (s : string) : option string :=
  match s with
  | String x rest => if Ascii.eqb x c then Some rest else None
  | "" => None
  end.

(** An integer literal: an optional minus sign, then [0] or digits that do
    not start with [0]; a fraction or an exponent (a float) is refused. *)
Definition scan_int (s : string) : option (Z * string) :=
  let (negative, body) :=
    match starts_with "-" s with
    | Some rest => (true, rest)
    | None => (false, s)
    end in
  match scan_digits 0 0 body with
  | (_, O, _) => None
  | (z, count, rest) =>
      if prefix "0" body && (1 <? count)%nat then None
      else if starts_fraction rest then None
      else Some (if negative then (- z)%Z else z, rest)
  end.

Definition drop (n : nat) (s : string) : string :=
  substring n (String.length s - n) s.

(** [scan_once]: the value at the start of the text (no leading white space)
    and the text after it.  [fuel] bounds the number of values read. *)
Fixpoint scan_value (fuel : nat) (s : string) {struct fuel} : option (json * string) :=
  match fuel with
  | O => None
  | S f =>
      match s with
      | String c rest =>
          let n := nat_of_ascii c in
          if (n =? 34)%nat then
            match scan_string rest with
            | Some (body, after) => Some (JStr body, after)
            | None => None
            end
          else if (n =? 91)%nat then
            let inner := skip_ws rest in
            match starts_with "]" inner with
            | Some after => Some (JArr [], after)
            | None =>
                match scan_items f inner with
                | Some (items, after) => Some (JArr items, after)
                | None => None
                end
            end
          else if (n =? 123)%nat then
            let inner := skip_ws rest in
            match starts_with "}" inner with
            | Some after => Some (JObj [], after)
            | None =>
                match scan_members f inner with
                | Some (members, after) => Some (JObj members, after)
                | None => None
                end
            end
          else if prefix "null" s then Some (JNull, drop 4 s)
          else if prefix "true" s then Some (JBool true, drop 4 s)
          else if prefix "false" s then Some (JBool false, drop 5 s)
          else
            match scan_int s with
            | Some (z, after) => Some (JInt z, after)
            | None => None
            end
      | "" => None
      end
  end

(** The items of an array after its opening bracket, up to the closing
    bracket. *)
with scan_items (fuel : nat) (s : string) {struct fuel}
  : option (list json * string) :=
  match fuel with
  | O => None
  | S f =>
      match scan_value f s with
      | Some (item, after) =>
          let next := skip_ws after in
          match starts_with "]" next with
          | Some after' => Some ([item], after')
          | None =>
              match starts_with "," next with
              | Some after' =>
                  match scan_items f (skip_ws after') with
                  | Some (items, after'') => Some (item :: items, after'')
                  | None => None
                  end
              | None => None
              end
          end
      | None => None
      end
  end

(** The members of an object after its opening brace, up to the closing
    brace. *)
with scan_members (fuel : nat) (s : string) {struct fuel}
  : option (list (string * json) * string) :=
  match fuel with
  | O => None
  | S f =>
      match starts_with (ascii_of_nat 34) s with
      | Some rest =>
          match scan_string rest with
          | Some (key, after) =>
              match starts_with ":" (skip_ws after) with
              | Some after' =>
                  match scan_value f (skip_ws after') with
                  | Some (d, after'') =>
                      let next := skip_ws after'' in
                      match starts_with "}" next with
                      | Some rest' => Some ([(key, d)], rest')
                      | None =>
                          match starts_with "," next with
                          | Some rest' =>
                              match scan_members f (skip_ws rest') with
                              | Some (members, rest'') =>
                                  Some ((key, d) :: members, rest'')
                              | None => None
                              end
                          | None => None
                          end
                      end
                  | None => None
                  end
              | None => None
              end
          | None => None
          end
      | None => None
      end
  end.

(** The scanner of [json.loads(s)]: one value between optional white space,
    or [None] for [JSONDecodeError]; the members of an object are the pairs
    it reads, in order.  [json.loads] makes a dict of them ([py_json_loads]
    below), which makes no difference when no name is repeated. *)
Definition json_loads (s : string) : option json :=
  let body := skip_ws s in
  match scan_value (S (String.length body)) body with
  | Some (d, after) =>
      match skip_ws after with
      | "" => Some d
      | _ => None
      end
  | None => None
  end.

(** [d[name] = x] on the members of a dict: the value of a name that is
    there is replaced where it is, a new name is added at the end. *)
Fixpoint dict_set (name : string) (x : json) (members : list (string * json))
  : list (string * json) :=
  match members with
  | [] => [(name, x)]
  | (k, y) :: rest =>
      if String.eqb k name then (k, x) :: rest else (k, y) :: dict_set name x rest
  end.

(** The dict built from the pairs the scanner has read, in order. *)
Definition dict_of_pairs (pairs : list (string * json)) : list (string * json) :=
  fold_left (fun members kv => dict_set (fst kv) (snd kv) members) pairs [].

(** The objects of a document as dicts, the inner ones first. *)
Fixpoint as_dicts (d : json) : json :=
  match d with
  | JArr items => JArr (map as_dicts items)
  | JObj members =>
      JObj (dict_of_pairs (map (fun kv => (fst kv, as_dicts (snd kv))) members))
  | _ => d
  end.

(** [json.loads(s)]: what the scanner reads, its objects as dicts; a name
    that is repeated keeps its first place and its last value. *)
Definition py_json_loads (s : string) : option json :=
  match json_loads s with
  | Some d => Some (as_dicts d)
  | None => None
  end.

(** * Notions used in the statements *)

(** ** Heaps and traversals *)

(** The containers being traversed are distinct locations of the heap. *)
Definition path_ok (h : heap) (path : list loc) : Prop :=
  NoDup path /\ Forall (fun l => l < length h) path.

(** The traversal [m] raises only exceptions that satisfy [P]. *)
Definition raises_only {A} (P : exn -> Prop) (m : fueled A) : Prop :=
  forall e, m = Some (Raise e) -> P e.

(** Every instance of the heap has a [__str__] and a [__repr__] that return:
    the objects of the host framework and parsed data are such. *)
Definition instance_text_ok (o : hobj) : bool :=
  match o with
  | HInst i => returns (str_result i) && returns (repr_result i)
  | _ => true
  end.

Definition text_safe (h : heap) : bool := forallb instance_text_ok h.


(** The document of a value, or the exception of its serialization. *)
Definition py_document (h : heap) (v : value) : outcome json :=
  run_fueled (document h (length h) [] v).

(** ** Traces *)

(** The traces of a computation that writes only through
    [_log_and_print]: blocks of a print, two flushes and the log record of
    the same text (and assignments to [self.context]). *)
Inductive mirrored : list event -> Prop :=
| mirrored_nil : mirrored []
| mirrored_message (message : string) (level : severity) (rest : list event) :
    mirrored rest ->
    mirrored (Print message :: FlushStdout :: FlushStdout
                :: LogRecord level message false :: rest)
| mirrored_assign (context : value) (rest : list event) :
    mirrored rest -> mirrored (SetSelfContext context :: rest).

(** [on_error] ends with a record that goes to the logger alone. *)
Definition traceback_record : event := LogRecord Error "Full traceback:" true.

(** The trace of [on_error]: mirrored, then that record if the hook
    returns. *)
Definition mirrored_then_traceback (m : M unit) : Prop :=
  exists t0, mirrored t0 /\
    ((result m = Ok tt /\ events m = (t0 ++ [traceback_record])%list) \/
     (exists e, result m = Raise e /\ events m = t0)).

Definition severity_eqb (a b : severity) : bool :=
  match a, b with
  | Info, Info | Error, Error => true
  | _, _ => false
  end.

(** A record of the logger, if the event is one, has the level [lvl]. *)
Definition logged_at (lvl : severity) (e : event) : bool :=
  match e with
  | LogRecord l _ _ => severity_eqb l lvl
  | _ => true
  end.

(** Every record of the trace has the level [lvl]. *)
Definition all_logged_at (lvl : severity) (t : list event) : Prop :=
  forallb (logged_at lvl) t = true.




(** ** Hooks *)

(** [update.artifacts], when the guard lets the loop run, can be iterated. *)
Definition artifacts_iterable (h : heap) (update : value) : Prop :=
  has_truthy h update "artifacts" = true ->
  exists items, py_iter h (getattr h update "artifacts" VNone) = Ok items.

(** The entries of the payload breakdown, if there is one, are written
    without an exception. *)
Definition breakdown_returns (h : heap) (external_input : value) : Prop :=
  forall items entry,
    as_dict h external_input = Some items -> In entry items ->
    result (log_breakdown_entry h entry) = Ok tt.

(** ** Reading a text back *)

(** The number read from the digits of [u] after the digits of [acc]. *)
Fixpoint uint_acc (u : uint) (acc : Z) : Z :=
  match u with
  | Nil => acc
  | D0 u' => uint_acc u' (10 * acc)
  | D1 u' => uint_acc u' (10 * acc + 1)
  | D2 u' => uint_acc u' (10 * acc + 2)
  | D3 u' => uint_acc u' (10 * acc + 3)
  | D4 u' => uint_acc u' (10 * acc + 4)
  | D5 u' => uint_acc u' (10 * acc + 5)
  | D6 u' => uint_acc u' (10 * acc + 6)
  | D7 u' => uint_acc u' (10 * acc + 7)
  | D8 u' => uint_acc u' (10 * acc + 8)
  | D9 u' => uint_acc u' (10 * acc + 9)
  end.

(** The text after a number: the end, or a character that is not part of a
    number. *)
Definition ends_number (rest : string) : bool :=
  match rest with
  | "" => true
  | String c _ => negb (is_digit c) && negb (starts_fraction rest)
  end.

(** The first character of the text of a value. *)
Definition value_head (c : ascii) : bool :=
  let n := nat_of_ascii c in
  is_digit c || (n =? 45)%nat || (n =? 34)%nat || (n =? 91)%nat || (n =? 123)%nat
  || (n =? 110)%nat || (n =? 116)%nat || (n =? 102)%nat.

(** Fuel that reads a document back: one for each value and each item. *)
Fixpoint need (d : json) : nat :=
  match d with
  | JArr items => S (list_sum (map (fun d' => S (need d')) items))
  | JObj members => S (list_sum (map (fun kv => S (need (snd kv))) members))
  | _ => 1
  end.

Definition need_items (ds : list json) : nat :=
  list_sum (map (fun d' => S (need d')) ds).

Definition need_members (ms : list (string * json)) : nat :=
  list_sum (map (fun kv => S (need (snd kv))) ms).

(** The text of the items of a container at [level], then [tail]. *)
Definition items_text (indent : string) (level : nat) (ds : list json)
           (tail : string) : string :=
  join ("," ++ nl ++ str_mul indent level) (map (render indent level) ds) ++ tail.

Definition member_text (indent : string) (level : nat) (kv : string * json)
  : string :=
  encode_basestring_ascii (fst kv) ++ ": " ++ render indent level (snd kv).

Definition members_text (indent : string) (level : nat)
           (ms : list (string * json)) (tail : string) : string :=
  join ("," ++ nl ++ str_mul indent level) (map (member_text indent level) ms)
    ++ tail.

(** The text after a container closes it: white space, the bracket [close],
    and [rest]. *)
Definition closes (close : ascii) (tail rest : string) : Prop :=
  ends_number tail = true /\ skip_ws tail = String close rest.

(** An item, and a member with its key, are the same data as their
    counterparts of the heap. *)
Definition same_item (h : heap) (d : json) (x : value) : Prop :=
  same_data h d x = true.

Definition same_member (h : heap) (m : string * json) (e : value * value) : Prop :=
  fst e = VStr (fst m) /\ same_data h (snd m) (snd e) = true.

(** The containers being traversed are larger data than [d]. *)
Definition above (h : heap) (path : list loc) (d : json) : Prop :=
  forall l d', In l path -> same_data h d' (VRef l) = true -> need d < need d'.

(** ** Inputs of the examples *)

(** An object whose [__str__] raises (location 0), a list that contains
    itself (1), a dict that contains itself (2), a tuple (3), a dict with a
    tuple as key (4) and a dict holding the raising object (5). *)
Definition Unprintable : instance :=
  {| cls_name := "Unprintable";
     inst_dict := Some [];
     cls_attrs := [];
     str_result := Raise (OtherException "RuntimeError");
     repr_result := Ok "<Unprintable object>";
     truthy := true |}.

Definition odd_heap : heap :=
  [ HInst Unprintable;
    HList [VRef 1];
    HDict [(VStr "self", VRef 2)];
    HTuple [VInt 1; VInt 2];
    HDict [(VRef 3, VStr "pair")];
    HDict [(VStr "k", VRef 0)] ].

(** A list that contains itself (location 0) and a dict that contains
    itself and that list (1). *)
Definition cyclic_heap : heap :=
  [ HList [VRef 0; VInt 7];
    HDict [(VStr "self", VRef 1); (VStr "list", VRef 0)] ].

(** An exception instance and a response context for the examples. *)
Definition Boom : instance :=
  {| cls_name := "ValueError";
     inst_dict := Some [];
     cls_attrs := [];
     str_result := Ok "boom";
     repr_result := Ok "ValueError('boom')";
     truthy := true |}.

Definition Ctx : instance :=
  {| cls_name := "ResponseContext";
     inst_dict := Some [("session_id", VStr "s-1"); ("task_id", VInt 42)];
     cls_attrs := [];
     str_result := Ok "<ResponseContext>";
     repr_result := Ok "<ResponseContext>";
     truthy := true |}.

Definition error_heap : heap := [HInst Boom; HInst Ctx].

(** A context with no attribute at all, an update and an error. *)
Definition BareContext : instance :=
  {| cls_name := "ResponseContext";
     inst_dict := Some [];
     cls_attrs := [];
     str_result := Ok "<ResponseContext>";
     repr_result := Ok "<ResponseContext>";
     truthy := true |}.

Definition DoneUpdate : instance :=
  {| cls_name := "SamUpdate";
     inst_dict := Some [("text", VStr "done"); ("status", VStr "completed");
                        ("error", VNone); ("artifacts", VRef 3)];
     cls_attrs := [];
     str_result := Ok "<SamUpdate>";
     repr_result := Ok "<SamUpdate>";
     truthy := true |}.

Definition hook_heap : heap :=
  [HInst BareContext; HInst DoneUpdate; HInst Boom; HList []].

(** A dict with one value of 501 characters, and an update with an attribute
    of 2001 characters. *)
Definition LongUpdate : instance :=
  {| cls_name := "SamUpdate";
     inst_dict := Some [("blob", VStr (str_mul "b" 2001))];
     cls_attrs := [];
     str_result := Ok "<SamUpdate>";
     repr_result := Ok "<SamUpdate>";
     truthy := true |}.

Definition long_heap : heap :=
  [HDict [(VStr "k", VStr (str_mul "a" 501))]; HInst LongUpdate].

(** A dict with a list, an instance as a leaf, and a tuple. *)
Definition Leaf : instance :=
  {| cls_name := "Decimal";
     inst_dict := None;
     cls_attrs := [];
     str_result := Ok "1.50";
     repr_result := Ok "Decimal('1.50')";
     truthy := true |}.

Definition mixed_heap : heap :=
  [ HDict [(VStr "a", VInt 1); (VStr "b", VRef 1); (VInt 7, VRef 2)];
    HList [VInt 1; VRef 3; VNone];
    HInst Leaf;
    HTuple [VBool true; VStr "x"] ].

(** [{"a": 1, "b": [1, 2, 3]}]. *)
Definition example_heap : heap :=
  [ HDict [(VStr "a", VInt 1); (VStr "b", VRef 1)];
    HList [VInt 1; VInt 2; VInt 3] ].

(** The same mapping as a document. *)
Definition example_document : json :=
  JObj [("a", JInt 1); ("b", JArr [JInt 1; JInt 2; JInt 3])].

(** [[{"k": [], "n": null}, "x", -12, true]]. *)
Definition nested_heap : heap :=
  [ HList [VRef 1; VStr "x"; VInt (-12); VBool true];
    HDict [(VStr "k", VRef 2); (VStr "n", VNone)];
    HList [] ].

(** ** Object graphs *)

(** The values the encoder descends into from [v]: the elements of a
    list or of a tuple, the values of a dict. *)
Definition items_of (h : heap) (v : value) : list value :=
  match v with
  | VRef l =>
      match deref h l with
      | HList items | HTuple items => items
      | HDict entries => map snd entries
      | HInst _ => []
      end
  | _ => []
  end.

(** [w] is [v] itself or is nested in [v], at any depth. *)
Inductive nested_in (h : heap) : value -> value -> Prop :=
| nested_here (v : value) : nested_in h v v
| nested_deeper (v c w : value) :
    In c (items_of h v) -> nested_in h c w -> nested_in h v w.

(** A container that is nested in itself. *)
Definition contains_itself (h : heap) (v : value) : Prop :=
  exists c, In c (items_of h v) /\ nested_in h c v.

(** A dict with a key that is a tuple or an instance: a key the encoder
    refuses, [default] being applied to values only. *)
Definition has_unsupported_key (h : heap) (v : value) : bool :=
  match v with
  | VRef l =>
      match deref h l with
      | HDict entries =>
          existsb (fun kv => match fst kv with VRef _ => true | _ => false end)
                  entries
      | _ => false
      end
  | _ => false
  end.

(** The containers being traversed hold the value that is being
    serialized. *)
Definition encloses (h : heap) (path : list loc) (v : value) : Prop :=
  forall l, on_path l path = true ->
            exists c, In c (items_of h (VRef l)) /\ nested_in h c v.

(** A key that a JSON object keeps as it is: a [str]. *)
Definition is_str (v : value) : bool :=
  match v with
  | VStr _ => true
  | _ => false
  end.

(** ** The objects a value holds *)




(** ** Documents and ints *)

(** Every object of every depth has names that differ from one another. *)
Fixpoint distinct (names : list string) : bool :=
  match names with
  | [] => true
  | name :: rest => negb (existsb (String.eqb name) rest) && distinct rest
  end.

Fixpoint distinct_names (d : json) : bool :=
  match d with
  | JArr items => forallb distinct_names items
  | JObj members =>
      distinct (map fst members)
      && forallb (fun kv => distinct_names (snd kv)) members
  | _ => true
  end.

(** An [int] whose conversion to text CPython accepts: at most 4300
    digits. *)
Definition within_int_limit (z : Z) : bool :=
  (String.length (int_repr (Z.abs z)) <=? 4300)%nat.

(** An [int] past that limit, or a dict with such an [int] as a key. *)
Definition has_long_int (h : heap) (v : value) : bool :=
  match v with
  | VInt z => negb (within_int_limit z)
  | VRef l =>
      match deref h l with
      | HDict entries =>
          existsb (fun kv => match fst kv with
                             | VInt z => negb (within_int_limit z)
                             | _ => false
                             end) entries
      | _ => false
      end
  | _ => false
  end.

(** ** Characters of a text *)

(** Every character of the text satisfies [p]. *)
Fixpoint str_forall (p : ascii -> bool) (s : string) : bool :=
  match s with
  | "" => true
  | String c rest => p c && str_forall p rest
  end.

(** A line feed, or a printable ASCII character (from the space to the
    tilde). *)
Definition printable (c : ascii) : bool :=
  let n := nat_of_ascii c in
  (n =? 10)%nat || ((32 <=? n)%nat && (n <=? 126)%nat).

(** ** Attributes and sections of an update *)

(** The attributes whose name does not start with an underscore. *)
Definition public_attrs (attrs : list (string * value)) : list (string * value) :=
  filter (fun attr => negb (prefix "_" (fst attr))) attrs.

(** The sections that follow the details of an update, each guarded by an
    attribute of the update. *)
Inductive update_section : Type :=
| TextSection
| StatusSection
| ErrorSection
| ArtifactsSection.

(** The attribute that guards the section. *)
Definition section_attribute (s : update_section) : string :=
  match s with
  | TextSection => "text"
  | StatusSection => "status"
  | ErrorSection => "error"
  | ArtifactsSection => "artifacts"
  end.

(** The message is the first message of the section that is proper to it
    (the separator before it is common to all). *)
Definition opens (s : update_section) (message : string) : bool :=
  match s with
  | TextSection => String.eqb message "    TEXT CONTENT:"
  | StatusSection => prefix "    STATUS: " message
  | ErrorSection => prefix "    ERROR: " message
  | ArtifactsSection => String.eqb message "    ARTIFACTS:"
  end.

(** Some message printed in the trace opens the section; none does. *)
Definition section_opened (s : update_section) (t : list event) : bool :=
  existsb (opens s) (console_texts t).

Definition section_closed (s : update_section) (t : list event) : Prop :=
  section_opened s t = false.

(** An instance of a class, as opposed to a value of a built-in type. *)
Definition is_instance (h : heap) (v : value) : bool :=
  match v with
  | VRef l =>
      match deref h l with
      | HInst _ => true
      | _ => false
      end
  | _ => false
  end.

(** An [int] or a [bool]. *)
Definition is_number (v : value) : bool :=
  match v with
  | VInt _ | VBool _ => true
  | _ => false
  end.

(** ** Computations that raise *)

(** The computation raises [e], and the last thing it did was to write
    [message]. *)
Definition stops_after {A} (message : string) (e : exn) (m : M A) : Prop :=
  result m = Raise e /\
  exists t0, events m = (t0 ++ events (_log_and_print message Info))%list.

(** ** State of the adapter *)

(** The event is an assignment to [self.context]. *)
Definition assigns_context (e : event) : bool :=
  match e with
  | SetSelfContext _ => true
  | _ => false
  end.

(** The trace holds no assignment: the adapter's state is left as it was. *)
Definition keeps_state (t : list event) : Prop :=
  existsb assigns_context t = false.

(** ** Further inputs of the examples *)

(** [{"points": {(0, 0): "origin"}}]: a dict with a tuple as key, nested in
    a dict. *)
Definition keyed_heap : heap :=
  [ HDict [(VStr "points", VRef 1)];
    HDict [(VRef 2, VStr "origin")];
    HTuple [VInt 0; VInt 0] ].

(** A dict whose key and whose string hold a tab and a character past the
    tilde. *)
Definition control_heap : heap :=
  [ HDict [(VStr ("a" ++ chr 9 ++ "b"), VStr (chr 233))] ].

(** An object that does not convert to text, and two updates of the same
    class that differ in private attributes only, one of which holds that
    object. *)
Definition Secret : instance :=
  {| cls_name := "Secret";
     inst_dict := None;
     cls_attrs := [];
     str_result := Raise (OtherException "RuntimeError");
     repr_result := Raise (OtherException "RuntimeError");
     truthy := true |}.

Definition UpdateA : instance :=
  {| cls_name := "SamUpdate";
     inst_dict := Some [("_token", VRef 2); ("text", VStr "hello")];
     cls_attrs := [];
     str_result := Ok "<SamUpdate A>";
     repr_result := Ok "<SamUpdate A>";
     truthy := true |}.

Definition UpdateB : instance :=
  {| cls_name := "SamUpdate";
     inst_dict := Some [("text", VStr "hello"); ("_seen", VBool true)];
     cls_attrs := [];
     str_result := Ok "<SamUpdate B>";
     repr_result := Ok "<SamUpdate B>";
     truthy := false |}.

Definition private_heap : heap := [HInst UpdateA; HInst UpdateB; HInst Secret].

(** An update with an attribute of exactly 2000 characters. *)
Definition FullUpdate : instance :=
  {| cls_name := "SamUpdate";
     inst_dict := Some [("blob", VStr (str_mul "b" 2000))];
     cls_attrs := [];
     str_result := Ok "<SamUpdate>";
     repr_result := Ok "<SamUpdate>";
     truthy := true |}.

Definition full_heap : heap := [HInst FullUpdate].

(** A dict with the keys of an update, an update whose [artifacts] is a
    number, and one whose [artifacts] is a text. *)
Definition CountUpdate : instance :=
  {| cls_name := "SamUpdate";
     inst_dict := Some [("text", VStr "done"); ("artifacts", VInt 3)];
     cls_attrs := [];
     str_result := Ok "<SamUpdate>";
     repr_result := Ok "<SamUpdate>";
     truthy := true |}.

Definition TextUpdate : instance :=
  {| cls_name := "SamUpdate";
     inst_dict := Some [("artifacts", VStr "ab")];
     cls_attrs := [];
     str_result := Ok "<SamUpdate>";
     repr_result := Ok "<SamUpdate>";
     truthy := true |}.

Definition update_heap : heap :=
  [ HDict [(VStr "text", VStr "done"); (VStr "status", VStr "completed")];
    HInst CountUpdate;
    HInst TextUpdate ].

(** [[[1, 2], [1, 2]]]: the same list twice in a list, and a dict with an
    [int] key. *)
Definition shared_heap : heap :=
  [ HList [VRef 1; VRef 1];
    HList [VInt 1; VInt 2];
    HDict [(VInt 1, VStr "one")] ].




(** [{1: "a", "1": "b"}]: two keys that become the same name. *)
Definition clash_heap : heap := [ HDict [(VInt 1, VStr "a"); (VStr "1", VStr "b")] ].

(** An object whose [__str__] returns and whose [__repr__] raises, in a
    dict. *)
Definition Shy : instance :=
  {| cls_name := "Shy";
     inst_dict := Some [];
     cls_attrs := [];
     str_result := Ok "shy";
     repr_result := Raise (OtherException "RuntimeError");
     truthy := true |}.

Definition shy_heap : heap := [HInst Shy; HDict [(VStr "k", VRef 0)]].




(** * Properties *)

(** ** The heap size is enough fuel *)

Lemma on_path_false_not_in (l : loc) (path : list loc) :
  on_path l path = false -> ~ In l path.
Proof.
  unfold on_path. intros Hf Hin.
  assert (existsb (Nat.eqb l) path = true) as Ht.
  { apply existsb_exists. exists l. split; [assumption | apply Nat.eqb_refl]. }
  congruence.
Qed.

Lemma deref_in_range (h : heap) (l : loc) :
  deref h l <> HList [] -> l < length h.
Proof.
  intros Hne. destruct (Nat.lt_ge_cases l (length h)) as [Hlt | Hge]; [assumption |].
  exfalso. apply Hne. unfold deref. now apply nth_overflow.
Qed.

Lemma path_ok_nil (h : heap) : path_ok h [].
Proof. split; constructor. Qed.

Lemma path_ok_cons (h : heap) (l : loc) (path : list loc) :
  path_ok h path -> l < length h -> on_path l path = false ->
  path_ok h (l :: path) /\ S (length path) <= length h.
Proof.
  intros [Hnd Hall] Hl Hoff.
  assert (path_ok h (l :: path)) as Hok.
  { split.
    - constructor; [now apply on_path_false_not_in | assumption].
    - now constructor. }
  split; [assumption |].
  destruct Hok as [Hnd' Hall'].
  replace (length h) with (length (seq 0 (length h))) by apply length_seq.
  change (S (length path)) with (length (l :: path)).
  apply NoDup_incl_length; [assumption |].
  intros x Hx. apply in_seq. rewrite Forall_forall in Hall'.
  specialize (Hall' x Hx). lia.
Qed.

Lemma fmap_seq_fuel {A B} (f : A -> fueled B) (xs : list A) :
  (forall x, In x xs -> f x <> None) -> fmap_seq f xs <> None.
Proof.
  induction xs as [| x rest IH]; intros Hf; simpl.
  - discriminate.
  - pose proof (Hf x (or_introl eq_refl)) as Hx.
    destruct (f x) as [[y | e] |]; cbv [fbind fret]; try congruence.
    assert (fmap_seq f rest <> None) as Hr.
    { apply IH. intros z Hz. apply Hf. now right. }
    destruct (fmap_seq f rest) as [[ys | e] |]; congruence.
Qed.

Lemma fbind_fuel {A B} (m : fueled A) (f : A -> fueled B) :
  m <> None -> (forall a, f a <> None) -> fbind m f <> None.
Proof.
  intros Hm Hf. destruct m as [[a | e] |]; simpl; [apply Hf | discriminate | congruence].
Qed.

(** Entering a container that is not on the path leaves fuel for it. *)
Ltac enter_container Hok l Hd :=
  let Hl := fresh "Hl" in
  let Hoff := fresh "Hoff" in
  let Hok' := fresh "Hok'" in
  let Hlen := fresh "Hlen" in
  assert (l < length _) as Hl
    by (apply deref_in_range; rewrite Hd; discriminate);
  match goal with
  | |- context [on_path l ?path] =>
      destruct (on_path l path) eqn:Hoff; [discriminate |]
  end;
  destruct (path_ok_cons Hok Hl Hoff) as [Hok' Hlen].

Lemma repr_from_fuel (h : heap) (fuel : nat) :
  forall (path : list loc) (v : value),
    path_ok h path -> length h <= fuel + length path ->
    repr_from h fuel path v <> None.
Proof.
  induction fuel as [| f IH]; intros path v Hok Hfuel;
    (destruct v as [| [|] | z | s | l]; try discriminate);
    simpl; destruct (deref h l) as [items | items | items | i] eqn:Hd;
    try discriminate.
  all: destruct items as [| x rest]; cbv [is_empty fret];
    [ try discriminate; destruct (on_path l path); discriminate |].
  all: enter_container Hok l Hd; try (exfalso; simpl in Hfuel; lia).
  - apply fbind_fuel; [| discriminate].
    apply fmap_seq_fuel. intros y _. apply IH; [assumption | simpl; lia].
  - apply fbind_fuel; [| intros [| p [| q r]]; discriminate].
    apply fmap_seq_fuel. intros y _. apply IH; [assumption | simpl; lia].
  - apply fbind_fuel; [| discriminate].
    apply fmap_seq_fuel. intros y _.
    apply fbind_fuel; [apply IH; [assumption | simpl; lia] |].
    intros ks. apply fbind_fuel; [apply IH; [assumption | simpl; lia] | discriminate].
Qed.

Lemma iterencode_fuel (h : heap) (indent : string) (fuel : nat) :
  forall (path : list loc) (level : nat) (o : value),
    path_ok h path -> length h <= fuel + length path ->
    iterencode h indent fuel path level o <> None.
Proof.
  induction fuel as [| f IH]; intros path level o Hok Hfuel;
    (destruct o as [| [|] | z | s | l]; try discriminate);
    simpl; destruct (deref h l) as [items | items | items | i] eqn:Hd;
    try discriminate.
  all: destruct items as [| x rest]; cbv [is_empty fret]; [discriminate |].
  all: enter_container Hok l Hd; try (exfalso; simpl in Hfuel; lia).
  - apply fbind_fuel; [| discriminate].
    apply fmap_seq_fuel. intros y _. apply IH; [assumption | simpl; lia].
  - apply fbind_fuel; [| discriminate].
    apply fmap_seq_fuel. intros y _. apply IH; [assumption | simpl; lia].
  - apply fbind_fuel; [| discriminate].
    apply fmap_seq_fuel. intros y _.
    destruct (json_key (fst y)) as [ks | e]; [| discriminate].
    apply fbind_fuel; [apply IH; [assumption | simpl; lia] | discriminate].
Qed.

(** [py_repr] and [json_dumps] never run out of fuel: the [RecursionError]
    of [run_fueled] is not reached. *)
Lemma fuel_enough (h : heap) (v : value) (indent : Z) :
  repr_from h (length h) [] v = Some (py_repr h v) /\
  iterencode h (str_mul " " (Z.to_nat indent)) (length h) [] 0 v
    = Some (json_dumps h v indent).
Proof.
  unfold py_repr, json_dumps, run_fueled. split.
  - pose proof (@repr_from_fuel h (length h) [] v (path_ok_nil h)) as H.
    destruct (repr_from h (length h) [] v); [reflexivity |].
    exfalso. apply H; simpl; [lia | reflexivity].
  - pose proof (@iterencode_fuel h (str_mul " " (Z.to_nat indent)) (length h) [] 0 v
                  (path_ok_nil h)) as H.
    destruct (iterencode h _ (length h) [] 0 v); [reflexivity |].
    exfalso. apply H; simpl; [lia | reflexivity].
Qed.

(** ** Which exceptions a traversal can raise *)

Lemma raises_only_fret {A} (P : exn -> Prop) (a : A) : raises_only P (fret a).
Proof. intros e H. discriminate. Qed.

Lemma raises_only_fbind {A B} (P : exn -> Prop) (m : fueled A) (f : A -> fueled B) :
  raises_only P m -> (forall a, raises_only P (f a)) -> raises_only P (fbind m f).
Proof.
  intros Hm Hf e. destruct m as [[a | e'] |]; simpl.
  - apply Hf.
  - intros H. injection H as <-. now apply Hm.
  - discriminate.
Qed.

Lemma raises_only_fmap_seq {A B} (P : exn -> Prop) (f : A -> fueled B) (xs : list A) :
  (forall x, raises_only P (f x)) -> raises_only P (fmap_seq f xs).
Proof.
  intros Hf. induction xs as [| x rest IH]; simpl.
  - apply raises_only_fret.
  - apply raises_only_fbind; [apply Hf |]. intros y.
    apply raises_only_fbind; [apply IH |]. intros ys. apply raises_only_fret.
Qed.

Create HintDb traversal.

#[local] Hint Resolve raises_only_fret raises_only_fbind raises_only_fmap_seq
  : traversal.

Lemma text_safe_deref (h : heap) (l : loc) (i : instance) :
  text_safe h = true -> deref h l = HInst i ->
  (exists s, str_result i = Ok s) /\ (exists s, repr_result i = Ok s).
Proof.
  unfold text_safe, deref. intros Hs Hd.
  rewrite forallb_forall in Hs.
  destruct (Nat.lt_ge_cases l (length h)) as [Hlt | Hge].
  - specialize (Hs (nth l h (HList [])) (nth_In h _ Hlt)).
    rewrite Hd in Hs. simpl in Hs. apply andb_true_iff in Hs as [H1 H2].
    destruct (str_result i), (repr_result i); try discriminate; eauto.
  - rewrite nth_overflow in Hd by assumption. discriminate.
Qed.

(** The remaining goals of a traversal are built from [fret], [fbind] and
    [fmap_seq] over recursive calls. *)
Ltac traversal_cases IH :=
  repeat first
    [ apply raises_only_fret
    | apply IH
    | apply raises_only_fbind
    | apply raises_only_fmap_seq
    | match goal with
      | |- raises_only _ (match ?x with _ => _ end) => destruct x eqn:?
      | |- forall _, _ => intro
      end ].

Lemma repr_from_no_raise (h : heap) (fuel : nat) :
  text_safe h = true ->
  forall (path : list loc) (v : value),
    raises_only (fun _ => False) (repr_from h fuel path v).
Proof.
  intros Hs. induction fuel as [| f IH]; intros path v;
    (destruct v as [| [|] | z | s | l]; try apply raises_only_fret);
    simpl; destruct (deref h l) as [items | items | items | i] eqn:Hd.
  all: try (destruct (text_safe_deref h l Hs Hd) as [_ [s Hr]]; rewrite Hr;
            intros e He; discriminate).
  all: try destruct (is_empty items); try destruct (on_path l path);
    try apply raises_only_fret; try (intros e He; discriminate).
  all: traversal_cases IH.
Qed.

Lemma json_key_raises (k : value) (e : exn) :
  json_key k = Raise e -> e = TypeError.
Proof. destruct k as [| [|] | | |]; simpl; congruence. Qed.

Lemma iterencode_raises (h : heap) (indent : string) (fuel : nat) :
  text_safe h = true ->
  forall (path : list loc) (level : nat) (o : value),
    raises_only (fun e => is_Exception e = true)
                (iterencode h indent fuel path level o).
Proof.
  intros Hs. induction fuel as [| f IH]; intros path level o;
    (destruct o as [| [|] | z | s | l]; try apply raises_only_fret);
    simpl; destruct (deref h l) as [items | items | items | i] eqn:Hd.
  all: try (destruct (text_safe_deref h l Hs Hd) as [[s Hr] _]; rewrite Hr;
            intros e He; discriminate).
  all: try destruct (is_empty items); try destruct (on_path l path);
    try apply raises_only_fret;
    try (intros e He; injection He as <-; reflexivity);
    try (intros e He; discriminate).
  all: traversal_cases IH.
  all: match goal with
       | He : json_key _ = Raise _ |- _ =>
           apply json_key_raises in He; subst;
           intros e' He'; injection He' as <-; reflexivity
       end.
Qed.

(** ** [_format_payload] *)

Lemma py_repr_safe (h : heap) (v : value) :
  text_safe h = true -> exists s, py_repr h v = Ok s.
Proof.
  intros Hs. destruct (fuel_enough h v 0) as [Hr _].
  destruct (py_repr h v) as [s | e] eqn:Hp; [now exists s |].
  exfalso. exact (repr_from_no_raise h (length h) Hs [] v Hr).
Qed.

Lemma py_str_safe (h : heap) (v : value) :
  text_safe h = true -> exists s, py_str h v = Ok s.
Proof.
  intros Hs. destruct v as [| b | z | s | l]; simpl;
    try apply (py_repr_safe h _ Hs); [now exists s |].
  destruct (deref h l) as [items | items | items | i] eqn:Hd;
    try apply (py_repr_safe h _ Hs).
  now destruct (text_safe_deref h l Hs Hd) as [Hstr _].
Qed.

Lemma json_dumps_raises (h : heap) (v : value) (indent : Z) (e : exn) :
  text_safe h = true -> json_dumps h v indent = Raise e -> is_Exception e = true.
Proof.
  intros Hs Hj. destruct (fuel_enough h v indent) as [_ Hi].
  rewrite Hj in Hi.
  exact (iterencode_raises h _ (length h) Hs [] 0 v Hi).
Qed.

Lemma fbind_ok_inv {A B} (m : fueled A) (f : A -> fueled B) (b : B) :
  fbind m f = Some (Ok b) -> exists a, m = Some (Ok a) /\ f a = Some (Ok b).
Proof.
  destruct m as [[a | e] |]; simpl; intros H; try discriminate. now exists a.
Qed.

(** The text of a list or a dict is never empty. *)
Lemma container_str_nonempty (h : heap) (data : value) (s : string) :
  is_dict_or_list h data = true -> py_str h data = Ok s -> s <> "".
Proof.
  destruct data as [| b | z | t | l]; simpl; try discriminate.
  destruct (fuel_enough h (VRef l) 0) as [Hr _].
  destruct (deref h l) as [items | items | items | i] eqn:Hd; try discriminate;
    intros _ Hp; rewrite Hp in Hr; clear Hp;
    destruct (length h) as [| f]; simpl in Hr; rewrite Hd in Hr.
  all: try destruct (on_path l []); try destruct (is_empty items);
    try (injection Hr as <-; discriminate); try discriminate.
  all: apply fbind_ok_inv in Hr as [parts [_ Hr]]; injection Hr as <-; discriminate.
Qed.

Lemma format_payload_not_container (h : heap) (data : value) (indent : Z) :
  is_dict_or_list h data = false -> _format_payload h data indent = py_str h data.
Proof.
  unfold _format_payload, try_except_Exception. intros ->.
  destruct (py_str h data) as [s | e]; [reflexivity |].
  now destruct (is_Exception e).
Qed.

Lemma format_payload_serialized (h : heap) (data : value) (indent : Z) (t : string) :
  is_dict_or_list h data = true -> json_dumps h data indent = Ok t ->
  _format_payload h data indent = Ok t.
Proof. unfold _format_payload. now intros -> ->. Qed.

Lemma format_payload_fallback (h : heap) (data : value) (indent : Z) (e : exn) :
  is_dict_or_list h data = true -> json_dumps h data indent = Raise e ->
  is_Exception e = true ->
  _format_payload h data indent = py_str h data.
Proof. unfold _format_payload, try_except_Exception. now intros -> -> ->. Qed.

Lemma format_payload_safe (h : heap) (data : value) (indent : Z) :
  text_safe h = true -> exists t, _format_payload h data indent = Ok t.
Proof.
  intros Hs. destruct (py_str_safe h data Hs) as [s Hstr].
  destruct (is_dict_or_list h data) eqn:Hc.
  - destruct (json_dumps h data indent) as [t | e] eqn:Hj.
    + exists t. now apply format_payload_serialized.
    + exists s. rewrite <- Hstr. apply format_payload_fallback with e; trivial.
      now apply json_dumps_raises with h data indent.
  - exists s. rewrite <- Hstr. now apply format_payload_not_container.
Qed.

(** C1, as stated, fails: for an object whose [__str__] raises, the handler
    of [_format_payload] calls [str] again and the exception reaches the
    caller. *)
Lemma format_payload_propagates_str_failure :
  _format_payload odd_heap (VRef 0) 2 = Raise (OtherException "RuntimeError").
Proof. reflexivity. Qed.

(** C1, amended: whenever [str(data)] returns, [_format_payload] returns a
    string and propagates no exception, as long as the serialization does
    not end by an exception outside [Exception], which propagates; a dict or
    a list that is serialized is returned as its serialization, whether
    [str] of it would return or not; when the serialization fails with an
    [Exception], the string is [str(data)], which is not empty.  When
    [str(data)] raises and [data] is not a dict or a list, or is one whose
    serialization fails, that exception reaches the caller. *)
Theorem format_payload_returns_when_str_does (h : heap) (data : value) (indent : Z) :
  (forall s,
      py_str h data = Ok s ->
      (forall e, json_dumps h data indent = Raise e -> is_Exception e = true) ->
      exists t, _format_payload h data indent = Ok t /\
        (forall e, is_dict_or_list h data = true ->
                   json_dumps h data indent = Raise e ->
                   t = s /\ s <> "")) /\
  (forall t,
      is_dict_or_list h data = true -> json_dumps h data indent = Ok t ->
      _format_payload h data indent = Ok t) /\
  (forall e,
      py_str h data = Raise e ->
      is_dict_or_list h data = false \/
      (exists e', json_dumps h data indent = Raise e' /\ is_Exception e' = true) ->
      _format_payload h data indent = Raise e) /\
  (forall e,
      is_dict_or_list h data = true -> json_dumps h data indent = Raise e ->
      is_Exception e = false ->
      _format_payload h data indent = Raise e).
Proof.
  split; [| split; [| split]].
  - intros s Hstr Hexc. destruct (is_dict_or_list h data) eqn:Hc.
    + destruct (json_dumps h data indent) as [t | e] eqn:Hj.
      * exists t. split; [now apply format_payload_serialized |].
        intros e _ He. discriminate.
      * exists s. split.
        -- rewrite <- Hstr. apply format_payload_fallback with e; auto.
        -- intros e' _ _. split; [reflexivity |].
           now apply container_str_nonempty with h data.
    + exists s. split; [| intros e He; discriminate].
      rewrite <- Hstr. now apply format_payload_not_container.
  - intros t Hc Hj. now apply format_payload_serialized.
  - intros e Hstr [Hc | [e' [Hj He']]].
    + rewrite <- Hstr. now apply format_payload_not_container.
    + rewrite <- Hstr. destruct (is_dict_or_list h data) eqn:Hc.
      * now apply format_payload_fallback with e'.
      * now apply format_payload_not_container.
  - intros e Hc Hj He. unfold _format_payload, try_except_Exception.
    now rewrite Hc, Hj, He.
Qed.

Lemma format_payload_returns_when_str_does_witness :
  (json_dumps cyclic_heap (VRef 1) 2 = Raise ValueError /\
   exists t, _format_payload cyclic_heap (VRef 1) 2 = Ok t /\
     (forall e, is_dict_or_list cyclic_heap (VRef 1) = true ->
                json_dumps cyclic_heap (VRef 1) 2 = Raise e ->
                t = "{'self': {...}, 'list': [[...], 7]}" /\
                "{'self': {...}, 'list': [[...], 7]}" <> "")) /\
  (py_str shy_heap (VRef 1) = Raise (OtherException "RuntimeError") /\
   exists t, _format_payload shy_heap (VRef 1) 2 = Ok t) /\
  (py_str odd_heap (VRef 0) = Raise (OtherException "RuntimeError") /\
   _format_payload odd_heap (VRef 0) 2 = Raise (OtherException "RuntimeError")).
Proof.
  split; [| split].
  - split; [reflexivity |].
    destruct (format_payload_returns_when_str_does cyclic_heap (VRef 1) 2)
      as [Hreturns _].
    apply Hreturns; [reflexivity |].
    intros e He. vm_compute in He. injection He as <-. reflexivity.
  - split; [reflexivity |].
    destruct (json_dumps shy_heap (VRef 1) 2) as [t | e] eqn:E;
      [| discriminate E].
    exists t.
    destruct (format_payload_returns_when_str_does shy_heap (VRef 1) 2)
      as [_ [Hserialized _]].
    now apply Hserialized.
  - split; [reflexivity |].
    destruct (format_payload_returns_when_str_does odd_heap (VRef 0) 2)
      as [_ [_ [Hraise _]]].
    apply Hraise; [reflexivity | left; reflexivity].
Defined.

(** ** Computations: events and results of the combinators *)

Lemma result_bind {A B} (m : M A) (f : A -> M B) :
  result (bind m f) =
  match result m with
  | Ok a => result (f a)
  | Raise e => Raise e
  end.
Proof.
  destruct m as [t1 [a | e]]; simpl; [| reflexivity].
  now destruct (f a).
Qed.

Lemma events_bind {A B} (m : M A) (f : A -> M B) :
  events (bind m f) =
  (events m ++ match result m with
               | Ok a => events (f a)
               | Raise _ => []
               end)%list.
Proof.
  destruct m as [t1 [a | e]]; simpl.
  - now destruct (f a).
  - now rewrite app_nil_r.
Qed.

Lemma result_log_and_print (message : string) (level : severity) :
  result (_log_and_print message level) = Ok tt.
Proof. reflexivity. Qed.

Lemma events_log_and_print (message : string) (level : severity) :
  events (_log_and_print message level)
  = [Print message; FlushStdout; FlushStdout; LogRecord level message false].
Proof. reflexivity. Qed.

Lemma result_for_each {A} (xs : list A) (body : A -> M unit) :
  (forall x, In x xs -> result (body x) = Ok tt) ->
  result (for_each xs body) = Ok tt.
Proof.
  induction xs as [| x rest IH]; intros Hb; simpl; [reflexivity |].
  rewrite result_bind, (Hb x (or_introl eq_refl)).
  apply IH. intros y Hy. apply Hb. now right.
Qed.

(** An event of a later step is an event of the whole, when the earlier
    steps return. *)
Lemma emitted_bind_l {A B} (m : M A) (f : A -> M B) (e : event) :
  In e (events m) -> In e (events (bind m f)).
Proof. intros H. rewrite events_bind. apply in_or_app. now left. Qed.

Lemma emitted_bind_r {A B} (m : M A) (f : A -> M B) (a : A) (e : event) :
  result m = Ok a -> In e (events (f a)) -> In e (events (bind m f)).
Proof. intros Hm H. rewrite events_bind, Hm. apply in_or_app. now right. Qed.

Lemma emitted_for_each {A} (xs : list A) (body : A -> M unit) (x : A) (e : event) :
  (forall y, In y xs -> result (body y) = Ok tt) ->
  In x xs -> In e (events (body x)) -> In e (events (for_each xs body)).
Proof.
  induction xs as [| y rest IH]; intros Hb Hx He; simpl; [contradiction |].
  destruct Hx as [-> | Hx].
  - now apply emitted_bind_l.
  - apply emitted_bind_r with tt; [apply Hb; now left |].
    apply IH; trivial. intros z Hz. apply Hb. now right.
Qed.

(** A property of event lists that holds of the empty list and of
    concatenations is kept by the combinators. *)
Section Emits.

Variable P : list event -> Prop.
Hypothesis P_nil : P [].
Hypothesis P_app : forall t1 t2, P t1 -> P t2 -> P (t1 ++ t2)%list.

Lemma emits_ret {A} (a : A) : P (events (ret a)).
Proof. exact P_nil. Qed.

Lemma emits_lift {A} (o : outcome A) : P (events (lift o)).
Proof. exact P_nil. Qed.

Lemma emits_bind {A B} (m : M A) (f : A -> M B) :
  P (events m) -> (forall a, P (events (f a))) -> P (events (bind m f)).
Proof.
  intros Hm Hf. rewrite events_bind. apply P_app; [assumption |].
  destruct (result m); [apply Hf | exact P_nil].
Qed.

Lemma emits_for_each {A} (xs : list A) (body : A -> M unit) :
  (forall x, P (events (body x))) -> P (events (for_each xs body)).
Proof.
  intros Hb. induction xs as [| x rest IH]; simpl; [exact P_nil |].
  apply emits_bind; [apply Hb | intros _; exact IH].
Qed.

Lemma emits_when (b : bool) (m : M unit) :
  P (events m) -> P (events (when b m)).
Proof. intros Hm. destruct b; [exact Hm | exact P_nil]. Qed.

End Emits.

(** Goals [P (events m)] for [m] built from the combinators, given the facts
    [P []], closure under concatenation, and [P] of one
    [_log_and_print]. *)
Ltac emits_steps Hnil Happ Hlog :=
  repeat first
    [ apply Hlog
    | apply (emits_ret _ Hnil)
    | apply (emits_lift _ Hnil)
    | apply (emits_when _ Hnil)
    | apply (emits_for_each _ Hnil Happ)
    | apply (emits_bind _ Hnil Happ)
    | match goal with
      | |- forall _, _ => intro
      | |- _ (events (match ?x with _ => _ end)) => destruct x
      | |- _ (events (let (_, _) := ?x in _)) => destruct x
      end ].

(** ** The two sinks *)

Lemma mirrored_app (t1 t2 : list event) :
  mirrored t1 -> mirrored t2 -> mirrored (t1 ++ t2).
Proof.
  intros H1 H2. induction H1; simpl; [assumption | |]; now constructor.
Qed.

Lemma mirrored_log_and_print (message : string) (level : severity) :
  mirrored (events (_log_and_print message level)).
Proof. rewrite events_log_and_print. repeat constructor. Qed.

Lemma mirrored_sinks (t : list event) :
  mirrored t ->
  console_texts t = logger_texts t /\ flushed_at_once t = true.
Proof.
  induction 1 as [| message level rest _ [IHt IHf] | context rest _ IH]; simpl.
  - now split.
  - split; [now f_equal | assumption].
  - exact IH.
Qed.

Ltac mirrored_steps :=
  emits_steps mirrored_nil mirrored_app mirrored_log_and_print.

Lemma mirrored_init (h : heap) (context : value) :
  mirrored (events (init h context)).
Proof.
  unfold init, fmt.
  apply (emits_bind _ mirrored_nil mirrored_app);
    [repeat constructor | intros _; mirrored_steps].
Qed.

Lemma mirrored_prepare_task (h : heap) (external_input endpoint_context : value) :
  mirrored (events (prepare_task h external_input endpoint_context)).
Proof. unfold prepare_task, log_breakdown_entry, fmt. mirrored_steps. Qed.

Lemma mirrored_handle_update (h : heap) (update context : value) :
  mirrored (events (handle_update h update context)).
Proof. unfold handle_update, log_attribute, fmt. mirrored_steps. Qed.

Lemma mirrored_on_task_complete (h : heap) (context : value) :
  mirrored (events (on_task_complete h context)).
Proof. unfold on_task_complete, fmt. mirrored_steps. Qed.

Lemma mirrored_then_traceback_bind {A} (m : M A) (f : A -> M unit) :
  mirrored (events m) -> (forall a, mirrored_then_traceback (f a)) ->
  mirrored_then_traceback (bind m f).
Proof.
  intros Hm Hf. unfold mirrored_then_traceback.
  rewrite result_bind, events_bind. destruct (result m) as [a | e].
  - destruct (Hf a) as [t0 [Ht0 [[Hr He] | [e [Hr He]]]]];
      exists (events m ++ t0)%list; (split; [now apply mirrored_app |]).
    + left. split; [assumption |]. now rewrite He, app_assoc.
    + right. exists e. split; [assumption |]. now rewrite He.
  - exists (events m). split; [assumption |]. right. exists e.
    split; [reflexivity | apply app_nil_r].
Qed.

Lemma on_error_sinks (h : heap) (error context : value) :
  mirrored_then_traceback (on_error h error context).
Proof.
  unfold on_error, fmt.
  repeat (apply mirrored_then_traceback_bind; [mirrored_steps | intros ?]).
  exists []. split; [constructor |]. left. now split.
Qed.

Lemma console_texts_app (t1 t2 : list event) :
  console_texts (t1 ++ t2) = (console_texts t1 ++ console_texts t2)%list.
Proof.
  induction t1 as [| [s | | lvl s x | c] rest IH]; simpl; trivial. now f_equal.
Qed.

Lemma logger_texts_app (t1 t2 : list event) :
  logger_texts (t1 ++ t2) = (logger_texts t1 ++ logger_texts t2)%list.
Proof.
  induction t1 as [| [s | | lvl s x | c] rest IH]; simpl; trivial. now f_equal.
Qed.

Lemma flushed_at_once_app (t1 t2 : list event) :
  mirrored t1 -> flushed_at_once (t1 ++ t2) = flushed_at_once t2.
Proof. induction 1; simpl; trivial. Qed.

(** C5, as stated, fails: in [on_error] the logger gets one record more than
    the console. *)
Lemma on_error_sinks_differ :
  let t := events (on_error error_heap (VRef 0) (VRef 1)) in
  logger_texts t = (console_texts t ++ ["Full traceback:"])%list /\
  console_texts t <> logger_texts t.
Proof.
  split; [reflexivity |]. vm_compute. intros H.
  apply (f_equal (@length string)) in H. discriminate.
Qed.

(** C5, amended: a message passed to [_log_and_print] is printed, standard
    output is flushed at once (twice), and the logger gets the same text
    (the module does not flush the logger); in [init], [prepare_task],
    [handle_update] and [on_task_complete] the texts printed are the texts
    logged, in order; in [on_error] they are too, up to the closing record
    ["Full traceback:"], which goes to the logger only. *)
Theorem sinks_receive_same_text (h : heap) :
  (forall message level,
      events (_log_and_print message level)
      = [Print message; FlushStdout; FlushStdout; LogRecord level message false]) /\
  (forall context,
      let t := events (init h context) in
      console_texts t = logger_texts t /\ flushed_at_once t = true) /\
  (forall external_input endpoint_context,
      let t := events (prepare_task h external_input endpoint_context) in
      console_texts t = logger_texts t /\ flushed_at_once t = true) /\
  (forall update context,
      let t := events (handle_update h update context) in
      console_texts t = logger_texts t /\ flushed_at_once t = true) /\
  (forall context,
      let t := events (on_task_complete h context) in
      console_texts t = logger_texts t /\ flushed_at_once t = true) /\
  (forall error context,
      let m := on_error h error context in
      logger_texts (events m)
      = (console_texts (events m)
           ++ if returns (result m) then ["Full traceback:"] else [])%list /\
      flushed_at_once (events m) = true).
Proof.
  split; [reflexivity |].
  split; [intros; apply mirrored_sinks, mirrored_init |].
  split; [intros; apply mirrored_sinks, mirrored_prepare_task |].
  split; [intros; apply mirrored_sinks, mirrored_handle_update |].
  split; [intros; apply mirrored_sinks, mirrored_on_task_complete |].
  intros error context m.
  destruct (on_error_sinks h error context) as [t0 [Ht0 Hcases]].
  destruct (mirrored_sinks Ht0) as [Hsame Hflush].
  fold m in Hcases. destruct Hcases as [[Hr He] | [e [Hr He]]]; rewrite Hr, He; simpl.
  - rewrite logger_texts_app, console_texts_app, flushed_at_once_app by assumption.
    simpl. rewrite app_nil_r. now rewrite Hsame.
  - rewrite app_nil_r. now split.
Qed.

(** ** Results of the hooks *)

Lemma result_lift {A} (o : outcome A) : result (lift o) = o.
Proof. reflexivity. Qed.

Lemma result_ret {A} (a : A) : result (ret a) = Ok a.
Proof. reflexivity. Qed.

Lemma result_when (b : bool) (m : M unit) :
  result (when b m) = if b then result m else Ok tt.
Proof. now destruct b. Qed.


Lemma getattr_present (h : heap) (v x : value) (name : string) (default : value) :
  py_getattr h v name = Some x -> getattr h v name default = x.
Proof. unfold getattr. now intros ->. Qed.

(** One step of the evaluation of [result m]: through a bind, a message, a
    conversion to text that is known to return (from [text_safe]), or a
    guard. *)
Ltac result_step Hs :=
  first
    [ rewrite result_log_and_print
    | rewrite result_ret
    | rewrite result_lift
    | rewrite result_when
    | rewrite result_bind
    | match goal with
      | |- context [match py_str ?h ?v with _ => _ end] =>
          let s := fresh "s" in
          let E := fresh "E" in
          destruct (py_str_safe h v Hs) as [s E]; rewrite E
      | |- context [match _format_payload ?h ?v ?i with _ => _ end] =>
          let s := fresh "s" in
          let E := fresh "E" in
          destruct (format_payload_safe h v i Hs) as [s E]; rewrite E
      end
    | progress cbv beta iota ].



Lemma result_on_error (h : heap) (error context : value) :
  text_safe h = true -> result (on_error h error context) = Ok tt.
Proof.
  intros Hs. unfold on_error, fmt. repeat result_step Hs.
  destruct (py_truthy h context); repeat result_step Hs; reflexivity.
Qed.

Lemma result_log_attribute (h : heap) (attr : string * value) :
  text_safe h = true -> result (log_attribute h attr) = Ok tt.
Proof.
  intros Hs. destruct attr as [attr_name attr_value]. unfold log_attribute.
  destruct (negb (prefix "_" attr_name)); [| reflexivity].
  repeat result_step Hs.
  destruct (2000 <? String.length s)%nat; repeat result_step Hs; reflexivity.
Qed.

Lemma result_handle_update (h : heap) (update context : value) :
  text_safe h = true -> artifacts_iterable h update ->
  result (handle_update h update context) = Ok tt.
Proof.
  intros Hs Hit. unfold handle_update, fmt. repeat result_step Hs.
  assert (result
            match py_vars h update with
            | Some attrs => for_each attrs (log_attribute h)
            | None =>
                s <- lift (_format_payload h update 2) ;;
                _log_and_print ("      Raw Update: " ++ s) Info
            end = Ok tt) as ->.
  { destruct (py_vars h update) as [attrs |].
    - apply result_for_each. intros x _. now apply result_log_attribute.
    - repeat result_step Hs. reflexivity. }
  repeat result_step Hs.
  destruct (has_truthy h update "text"); repeat result_step Hs.
  all: destruct (has_truthy h update "status"); repeat result_step Hs.
  all: destruct (has_truthy h update "error"); repeat result_step Hs.
  all: unfold artifacts_iterable in Hit;
    destruct (has_truthy h update "artifacts"); repeat result_step Hs;
    try reflexivity.
  all: destruct (Hit eq_refl) as [items ->]; repeat result_step Hs.
  all: rewrite result_for_each; [reflexivity |];
    intros x _; repeat result_step Hs; reflexivity.
Qed.

(** ** Messages of the hooks *)

(** Solves [result m = Ok ?a] for a step whose result is at hand. *)
Ltac result_known :=
  first
    [ apply result_log_and_print
    | reflexivity
    | rewrite result_lift; eassumption
    | eassumption ].

(** Searches the steps of a hook, in order, for the message of the goal
    [In e (events m)]; the steps before it must have a known result. *)
Ltac find_message :=
  lazymatch goal with
  | |- In _ (events (_log_and_print _ _)) =>
      rewrite events_log_and_print;
      first [left; reflexivity | do 3 right; left; reflexivity]
  | |- In _ (events (emit _)) => left; reflexivity
  | |- In _ (events (when true _)) =>
      unfold when at 1; find_message
  | |- In _ (events (bind _ _)) =>
      first [ apply emitted_bind_l; find_message
            | eapply emitted_bind_r; [result_known | cbv beta; find_message] ]
  end.


(** Replaces the conversions [py_str h (getattr ...)] of the goal by their
    texts, which exist in a [text_safe] heap. *)
Ltac name_attr_texts Hs :=
  repeat match goal with
    | |- context [py_str ?h (getattr ?h ?c ?n ?d)] =>
        let s := fresh "s" in
        let E := fresh "E" in
        destruct (py_str_safe h (getattr h c n d) Hs) as [s E]; rewrite E
    end.





(** ** The error hook *)

Lemma all_logged_at_app (lvl : severity) (t1 t2 : list event) :
  all_logged_at lvl t1 -> all_logged_at lvl t2 -> all_logged_at lvl (t1 ++ t2).
Proof. unfold all_logged_at. intros H1 H2. now rewrite forallb_app, H1, H2. Qed.

Lemma on_error_levels (h : heap) (error context : value) :
  all_logged_at Error (events (on_error h error context)).
Proof.
  unfold on_error, fmt.
  emits_steps (eq_refl : all_logged_at Error [])
              (@all_logged_at_app Error)
              (fun message => eq_refl
                 : all_logged_at Error (events (_log_and_print message Error))).
  all: reflexivity.
Qed.

(** C4, as stated, fails: [on_error] does not re-raise the error, it
    returns [None]. *)
Lemma on_error_returns_normally :
  result (on_error error_heap (VRef 0) (VRef 1)) = Ok tt.
Proof. reflexivity. Qed.

(** C4, amended: [on_error] logs at error level only, with the type name of
    the error, its message, and the session and task identifiers of a truthy
    context, ends with the record ["Full traceback:"], and then returns
    [None]: it neither re-raises the error nor passes it on.  (It returns
    when the conversions to text of the error and of the identifiers do.) *)
Theorem on_error_logs_and_returns (h : heap) (error context : value) :
  let m := on_error h error context in
  all_logged_at Error (events m) /\
  In (LogRecord Error ("    Error Type: " ++ type_name h error) false) (events m) /\
  (text_safe h = true ->
   result m = Ok tt /\
   (exists msg, py_str h error = Ok msg /\
      In (LogRecord Error ("    Error Message: " ++ msg) false) (events m)) /\
   (py_truthy h context = true ->
    exists sid tid,
      py_str h (getattr h context "session_id" (VStr "N/A")) = Ok sid /\
      py_str h (getattr h context "task_id" (VStr "N/A")) = Ok tid /\
      In (LogRecord Error ("    Context Session ID: " ++ sid) false) (events m) /\
      In (LogRecord Error ("    Context Task ID: " ++ tid) false) (events m)) /\
   In traceback_record (events m)).
Proof.
  intros m. subst m.
  split; [apply on_error_levels |].
  split; [unfold on_error; find_message |].
  intros Hs. split; [now apply result_on_error |].
  destruct (py_str_safe h error Hs) as [msg Hmsg].
  destruct (py_str_safe h (getattr h context "session_id" (VStr "N/A")) Hs) as [sid Hsid].
  destruct (py_str_safe h (getattr h context "task_id" (VStr "N/A")) Hs) as [tid Htid].
  unfold on_error, fmt. rewrite Hmsg, Hsid, Htid.
  split; [exists msg; split; [reflexivity | find_message] |].
  split.
  - intros ->. exists sid, tid. repeat split; find_message.
  - destruct (py_truthy h context); unfold when; find_message.
Qed.

Lemma on_error_logs_and_returns_witness :
  text_safe error_heap = true /\
  let m := on_error error_heap (VRef 0) (VRef 1) in
  result m = Ok tt /\
  In (LogRecord Error "    Error Message: boom" false) (events m) /\
  In (LogRecord Error "    Context Session ID: s-1" false) (events m) /\
  In (LogRecord Error "    Context Task ID: 42" false) (events m) /\
  In traceback_record (events m).
Proof.
  split; [reflexivity |].
  destruct (on_error_logs_and_returns error_heap (VRef 0) (VRef 1))
    as [_ [_ Hsafe]].
  destruct (Hsafe eq_refl) as [Hret [[msg [Hmsg Hin]] [Hctx Htb]]].
  destruct (Hctx eq_refl) as [sid [tid [Hsid [Htid [Hs Ht]]]]].
  injection Hmsg as <-. injection Hsid as <-. injection Htid as <-.
  repeat split; assumption.
Defined.

(** ** [prepare_task] *)

Lemma result_bind_inv {A B} (m : M A) (f : A -> M B) (b : B) :
  result (bind m f) = Ok b -> exists a, result m = Ok a /\ result (f a) = Ok b.
Proof.
  rewrite result_bind. destruct (result m) as [a | e]; [| discriminate].
  intros H. now exists a.
Qed.

Lemma result_log_breakdown_entry (h : heap) (entry : value * value) :
  text_safe h = true -> result (log_breakdown_entry h entry) = Ok tt.
Proof.
  intros Hs. destruct entry as [key value]. unfold log_breakdown_entry, fmt.
  repeat result_step Hs. reflexivity.
Qed.

Lemma stops_after_bind_r {A B} (m : M A) (f : A -> M B) (a : A)
      (message : string) (e : exn) :
  result m = Ok a -> stops_after message e (f a) ->
  stops_after message e (bind m f).
Proof.
  intros Hm [Hr [t0 Ht]]. split.
  - now rewrite result_bind, Hm.
  - exists (events m ++ t0)%list. rewrite events_bind, Hm, Ht. apply app_assoc.
Qed.

Lemma stops_after_bind_l {A B} (m : M A) (f : A -> M B)
      (message : string) (e : exn) :
  stops_after message e m -> stops_after message e (bind m f).
Proof.
  intros [Hr [t0 Ht]]. split.
  - now rewrite result_bind, Hr.
  - exists t0. now rewrite events_bind, Hr, app_nil_r.
Qed.

(** The call of [SamTask] in [prepare_task] raises, whatever the text of
    the task: the keywords [content] and [metadata] name no field, and the
    required field [parts] is not given. *)
Lemma new_SamTask_raises (task_text : string) :
  new_SamTask
    [ ("target_agent", ArgText "OrchestratorAgent");
      ("content", ArgParts [create_text_part task_text]);
      ("metadata", ArgMapping [("source", "logging_webhook_adapter")]) ]
  = Raise (OtherException "ValidationError").
Proof. reflexivity. Qed.

Lemma prepare_task_returns_no_task (h : heap)
      (external_input endpoint_context : value) :
  exists e, result (prepare_task h external_input endpoint_context) = Raise e.
Proof.
  destruct (result (prepare_task h external_input endpoint_context))
    as [task | e] eqn:H; [exfalso | now exists e].
  unfold prepare_task in H.
  repeat match type of H with
         | result (bind _ _) = Ok _ =>
             let a := fresh "a" in
             let Ha := fresh "Ha" in
             apply result_bind_inv in H as [a [Ha H]]
         end.
  match goal with
  | Hnew : result (lift (new_SamTask _)) = Ok _ |- _ => discriminate Hnew
  end.
Qed.

Lemma prepare_task_reaches_SamTask (h : heap)
      (external_input endpoint_context : value) (s : string) :
  _format_payload h external_input 2 = Ok s ->
  (py_truthy h endpoint_context = true ->
   exists c, _format_payload h endpoint_context 2 = Ok c) ->
  breakdown_returns h external_input ->
  stops_after (SEPARATOR_THICK ++ nl) (OtherException "ValidationError")
              (prepare_task h external_input endpoint_context).
Proof.
  intros Hf Hctx Hbreak. unfold prepare_task. rewrite Hf.
  do 6 (eapply stops_after_bind_r; [result_known | cbv beta]).
  eapply stops_after_bind_r with (a := tt); cbv beta.
  { rewrite result_when. destruct (py_truthy h endpoint_context); [| reflexivity].
    destruct (Hctx eq_refl) as [c ->]. reflexivity. }
  do 5 (eapply stops_after_bind_r; [result_known | cbv beta]).
  eapply stops_after_bind_r with (a := tt); cbv beta.
  { destruct (as_dict h external_input) as [items |] eqn:Hd; [| reflexivity].
    rewrite result_bind, result_log_and_print.
    apply result_for_each. intros entry Hin. now apply (Hbreak items). }
  eapply stops_after_bind_r; [result_known | cbv beta].
  split.
  - rewrite !result_bind, result_log_and_print.
    destruct (as_str external_input) as [text |];
      [rewrite result_ret | rewrite result_lift];
      cbv beta iota; now rewrite result_bind, result_lift, new_SamTask_raises.
  - exists []. rewrite !events_bind, result_log_and_print.
    destruct (as_str external_input) as [text |];
      [rewrite result_ret | rewrite result_lift];
      cbv beta iota; rewrite events_bind, result_lift, new_SamTask_raises;
      reflexivity.
Qed.

(** C9: the code does not do what it sets out to do.  [prepare_task] logs
    the request and builds the keyword arguments of the task the claim
    describes, but the call [SamTask(target_agent=..., content=...,
    metadata=...)] names fields the class does not have and omits [parts]:
    it raises [ValidationError], so no call of [prepare_task] returns a
    task; when the payload and the context format, the closing separator of
    the request is the last message written. *)
Theorem prepare_task_raises_at_SamTask (h : heap)
        (external_input endpoint_context : value) :
  (exists e, result (prepare_task h external_input endpoint_context) = Raise e) /\
  (forall s,
      _format_payload h external_input 2 = Ok s ->
      (py_truthy h endpoint_context = true ->
       exists c, _format_payload h endpoint_context 2 = Ok c) ->
      breakdown_returns h external_input ->
      stops_after (SEPARATOR_THICK ++ nl) (OtherException "ValidationError")
                  (prepare_task h external_input endpoint_context)) /\
  result (prepare_task [] (VStr "hello") VNone)
  = Raise (OtherException "ValidationError").
Proof.
  split; [apply prepare_task_returns_no_task |].
  split; [intros s; apply prepare_task_reaches_SamTask | reflexivity].
Qed.

Lemma prepare_task_raises_at_SamTask_witness :
  stops_after (SEPARATOR_THICK ++ nl) (OtherException "ValidationError")
              (prepare_task example_heap (VRef 0) (VStr "hook")).
Proof.
  destruct (prepare_task_raises_at_SamTask example_heap (VRef 0) (VStr "hook"))
    as [_ [Hstops _]].
  destruct (_format_payload example_heap (VRef 0) 2) as [s | e] eqn:E;
    [| discriminate E].
  apply (Hstops s eq_refl).
  - intros _. exists "hook". reflexivity.
  - intros items entry Hd Hin. injection Hd as <-.
    destruct Hin as [<- | [<- | []]]; reflexivity.
Defined.

(** ** [handle_update] on a completed update *)







(** ** Truncation of long values *)

Lemma length_take (n : nat) (s : string) :
  n <= String.length s -> String.length (take n s) = n.
Proof.
  unfold take. revert n. induction s as [| c rest IH]; intros [| n] Hn; simpl in *;
    try reflexivity; try lia.
  f_equal. apply IH. lia.
Qed.

Lemma events_lift_bind {A B} (o : outcome A) (a : A) (f : A -> M B) :
  o = Ok a -> bind (lift o) f = f a.
Proof. intros ->. unfold bind, lift. now destruct (f a). Qed.

(** A long value in the breakdown of [prepare_task]: one message, with 500
    characters of the value and the fixed marker. *)
Lemma breakdown_entry_truncated (h : heap) (key value : value)
      (formatted key_text : string) :
  _format_payload h value 2 = Ok formatted ->
  py_str h key = Ok key_text ->
  500 < String.length formatted ->
  log_breakdown_entry h (key, value)
  = _log_and_print ("      " ++ key_text ++ ": "
                      ++ take 500 formatted ++ "... [TRUNCATED]") Info.
Proof.
  intros Hf Hk Hlen. unfold log_breakdown_entry, fmt.
  rewrite (events_lift_bind _ Hf), (events_lift_bind _ Hk).
  apply Nat.ltb_lt in Hlen. now rewrite Hlen.
Qed.

(** A long value in the details of [handle_update]: three messages, the
    second with 2000 characters of the value, the third with its length. *)
Lemma attribute_truncated (h : heap) (attr_name : string) (attr_value : value)
      (formatted : string) :
  prefix "_" attr_name = false ->
  _format_payload h attr_value 2 = Ok formatted ->
  2000 < String.length formatted ->
  log_attribute h (attr_name, attr_value)
  = (_log_and_print ("      " ++ attr_name ++ " (truncated):") Info ;;
     _log_and_print ("        " ++ take 2000 formatted ++ "...") Info ;;
     _log_and_print ("        [Total length: "
                       ++ int_repr (Z.of_nat (String.length formatted))
                       ++ " chars]") Info).
Proof.
  intros Hp Hf Hlen. unfold log_attribute. rewrite Hp. simpl negb. cbv iota.
  rewrite (events_lift_bind _ Hf).
  apply Nat.ltb_lt in Hlen. now rewrite Hlen.
Qed.

(** The messages of a loop body are messages of the hook. *)
Lemma breakdown_entry_emitted (h : heap) (external_input endpoint_context : value)
      (items : list (value * value)) (entry : value * value) (e : event) :
  text_safe h = true ->
  as_dict h external_input = Some items -> In entry items ->
  In e (events (log_breakdown_entry h entry)) ->
  In e (events (prepare_task h external_input endpoint_context)).
Proof.
  intros Hs Hd Hin He. unfold prepare_task. rewrite Hd.
  destruct (format_payload_safe h external_input 2 Hs) as [s E]. rewrite E.
  assert (result (when (py_truthy h endpoint_context)
                    (_log_and_print (nl ++ "    ENDPOINT CONTEXT:") Info ;;
                     s <- lift (_format_payload h endpoint_context 2) ;;
                     _log_and_print s Info ;;
                     _log_and_print SEPARATOR_THIN Info)) = Ok tt) as Hctx.
  { rewrite result_when. destruct (py_truthy h endpoint_context); [| reflexivity].
    repeat result_step Hs. reflexivity. }
  do 6 (eapply emitted_bind_r; [result_known | cbv beta]).
  eapply emitted_bind_r; [exact Hctx | cbv beta].
  do 5 (eapply emitted_bind_r; [result_known | cbv beta]).
  apply emitted_bind_l. eapply emitted_bind_r; [result_known | cbv beta].
  apply emitted_for_each with entry; trivial.
  intros y _. now apply result_log_breakdown_entry.
Qed.

Lemma attribute_emitted (h : heap) (update context : value)
      (attrs : list (string * value)) (attr : string * value) (e : event) :
  text_safe h = true ->
  py_vars h update = Some attrs -> In attr attrs ->
  In e (events (log_attribute h attr)) ->
  In e (events (handle_update h update context)).
Proof.
  intros Hs Hv Hin He. unfold handle_update, fmt. rewrite Hv.
  name_attr_texts Hs.
  do 16 (eapply emitted_bind_r; [result_known | cbv beta]).
  apply emitted_bind_l.
  apply emitted_for_each with attr; trivial.
  intros y _. now apply result_log_attribute.
Qed.

(** C2, as stated, fails: the marker of [prepare_task] does not give the
    original length (501 here); no message of the hook does. *)
Lemma prepare_task_marker_omits_length :
  let t := events (prepare_task long_heap (VRef 0) VNone) in
  In (Print ("      k: " ++ str_mul "a" 500 ++ "... [TRUNCATED]")) t /\
  forallb (fun message => negb (contains "501" message)) (console_texts t) = true.
Proof.
  split.
  - apply breakdown_entry_emitted
      with (items := [(VStr "k", VStr (str_mul "a" 501))])
           (entry := (VStr "k", VStr (str_mul "a" 501)));
      [reflexivity | reflexivity | now left |].
    vm_compute. now left.
  - vm_compute. reflexivity.
Qed.

(** C2, amended: a formatted value longer than the threshold is cut to
    exactly that many characters.  In [prepare_task] (500) the line is the
    key, the 500 characters and the fixed marker ["... [TRUNCATED]"], which
    does not give the original length.  In [handle_update] (2000) the value
    takes three messages: the name with ["(truncated):"], the 2000
    characters followed by ["..."], and ["[Total length: N chars]"] with the
    original length [N]. *)
Theorem long_values_are_truncated (h : heap) :
  (forall key value formatted key_text,
      _format_payload h value 2 = Ok formatted ->
      py_str h key = Ok key_text ->
      500 < String.length formatted ->
      String.length (take 500 formatted) = 500 /\
      log_breakdown_entry h (key, value)
      = _log_and_print ("      " ++ key_text ++ ": "
                          ++ take 500 formatted ++ "... [TRUNCATED]") Info /\
      (text_safe h = true ->
       forall external_input endpoint_context items,
         as_dict h external_input = Some items -> In (key, value) items ->
         In (Print ("      " ++ key_text ++ ": "
                      ++ take 500 formatted ++ "... [TRUNCATED]"))
            (events (prepare_task h external_input endpoint_context)))) /\
  (forall attr_name attr_value formatted,
      prefix "_" attr_name = false ->
      _format_payload h attr_value 2 = Ok formatted ->
      2000 < String.length formatted ->
      String.length (take 2000 formatted) = 2000 /\
      console_texts (events (log_attribute h (attr_name, attr_value)))
      = [ "      " ++ attr_name ++ " (truncated):";
          "        " ++ take 2000 formatted ++ "...";
          "        [Total length: "
            ++ int_repr (Z.of_nat (String.length formatted)) ++ " chars]" ] /\
      (text_safe h = true ->
       forall update context attrs,
         py_vars h update = Some attrs -> In (attr_name, attr_value) attrs ->
         forall line,
           In line [ "      " ++ attr_name ++ " (truncated):";
                     "        " ++ take 2000 formatted ++ "...";
                     "        [Total length: "
                       ++ int_repr (Z.of_nat (String.length formatted))
                       ++ " chars]" ] ->
           In (Print line) (events (handle_update h update context)))).
Proof.
  split.
  - intros key value formatted key_text Hf Hk Hlen.
    pose proof (breakdown_entry_truncated h key value Hf Hk Hlen) as Hbody.
    split; [apply length_take; lia |]. split; [exact Hbody |].
    intros Hs external_input endpoint_context items Hd Hin.
    apply breakdown_entry_emitted with items (key, value); trivial.
    rewrite Hbody, events_log_and_print. now left.
  - intros attr_name attr_value formatted Hp Hf Hlen.
    pose proof (attribute_truncated h attr_name attr_value Hp Hf Hlen) as Hbody.
    split; [apply length_take; lia |]. split; [now rewrite Hbody |].
    intros Hs update context attrs Hv Hin line Hline.
    apply attribute_emitted with attrs (attr_name, attr_value); trivial.
    rewrite Hbody. simpl in Hline.
    destruct Hline as [<- | [<- | [<- | []]]]; find_message.
Qed.

Lemma long_values_are_truncated_witness :
  (String.length (take 500 (str_mul "a" 501)) = 500 /\
   In (Print ("      k: " ++ take 500 (str_mul "a" 501) ++ "... [TRUNCATED]"))
      (events (prepare_task long_heap (VRef 0) VNone))) /\
  (String.length (take 2000 (str_mul "b" 2001)) = 2000 /\
   In (Print "        [Total length: 2001 chars]")
      (events (handle_update long_heap (VRef 1) VNone))).
Proof.
  destruct (long_values_are_truncated long_heap) as [Hbreakdown Hdetails].
  split.
  - destruct (Hbreakdown (VStr "k") (VStr (str_mul "a" 501)) (str_mul "a" 501) "k"
                eq_refl eq_refl) as [Hlen [_ Hin]].
    { apply Nat.ltb_lt. reflexivity. }
    split; [exact Hlen |].
    apply (Hin eq_refl (VRef 0) VNone [(VStr "k", VStr (str_mul "a" 501))] eq_refl).
    now left.
  - destruct (Hdetails "blob" (VStr (str_mul "b" 2001)) (str_mul "b" 2001)
                eq_refl eq_refl) as [Hlen [_ Hin]].
    { apply Nat.ltb_lt. reflexivity. }
    split; [exact Hlen |].
    apply (Hin eq_refl (VRef 1) VNone [("blob", VStr (str_mul "b" 2001))] eq_refl).
    + now left.
    + do 2 right. left. reflexivity.
Defined.

(** ** The encoder lays out the document of the value *)

Lemma fmap_seq_ext {A B} (f g : A -> fueled B) (xs : list A) :
  (forall x, f x = g x) -> fmap_seq f xs = fmap_seq g xs.
Proof.
  intros Hfg. induction xs as [| x rest IH]; simpl; [reflexivity |].
  now rewrite Hfg, IH.
Qed.

Lemma fmap_seq_compose {A B C} (f : A -> fueled B) (g : B -> C) (xs : list A) :
  fmap_seq (fun x => fbind (f x) (fun y => fret (g y))) xs
  = fbind (fmap_seq f xs) (fun ys => fret (map g ys)).
Proof.
  induction xs as [| x rest IH]; simpl; [reflexivity |].
  destruct (f x) as [[y | e] |]; simpl; trivial.
  rewrite IH. now destruct (fmap_seq f rest) as [[ys | e] |].
Qed.

Lemma fmap_seq_cons_ok {A B} (f : A -> fueled B) (x : A) (rest : list A)
      (ys : list B) :
  fmap_seq f (x :: rest) = Some (Ok ys) -> exists y ys', ys = y :: ys'.
Proof.
  simpl. destruct (f x) as [[y | e] |]; simpl; try discriminate.
  destruct (fmap_seq f rest) as [[ys' | e] |]; simpl; try discriminate.
  intros H. injection H as <-. now exists y, ys'.
Qed.

Lemma iterencode_document (h : heap) (indent : string) (fuel : nat) :
  forall (path : list loc) (level : nat) (v : value),
    iterencode h indent fuel path level v
    = fbind (document h fuel path v) (fun d => fret (render indent level d)).
Proof.
  induction fuel as [| f IH]; intros path level v;
    (destruct v as [| [|] | z | s | l]; try reflexivity);
    cbn [iterencode document]; destruct (deref h l) as [items | items | items | i] eqn:Hd;
    try (destruct (str_result i); reflexivity);
    (destruct items as [| x rest]; [reflexivity |]);
    cbv [is_empty]; (destruct (on_path l path); [reflexivity |]);
    try reflexivity.
  - rewrite (fmap_seq_ext _ _ _ (IH (l :: path) (S level))), fmap_seq_compose.
    destruct (fmap_seq (document h f (l :: path)) (x :: rest))
      as [[ds | e] |] eqn:Hds; try reflexivity.
    now destruct (fmap_seq_cons_ok _ _ _ Hds) as [d [ds' ->]].
  - rewrite (fmap_seq_ext _ _ _ (IH (l :: path) (S level))), fmap_seq_compose.
    destruct (fmap_seq (document h f (l :: path)) (x :: rest))
      as [[ds | e] |] eqn:Hds; try reflexivity.
    now destruct (fmap_seq_cons_ok _ _ _ Hds) as [d [ds' ->]].
  - rewrite (fmap_seq_ext _
               (fun kv =>
                  fbind
                    (fbind (Some (json_key (fst kv))) (fun key =>
                     fbind (document h f (l :: path) (snd kv)) (fun d =>
                     fret (key, d))))
                    (fun kd => fret (encode_basestring_ascii (fst kd) ++ ": "
                                       ++ render indent (S level) (snd kd))))).
    + rewrite fmap_seq_compose.
      match goal with
      | |- context [fmap_seq ?g (x :: rest)] =>
          destruct (fmap_seq g (x :: rest)) as [[ms | e] |] eqn:Hms
      end; try reflexivity.
      now destruct (fmap_seq_cons_ok _ _ _ Hms) as [m [ms' ->]].
    + intros kv. destruct (json_key (fst kv)) as [key | e]; simpl; trivial.
      rewrite IH. now destruct (document h f (l :: path) (snd kv)) as [[d | e] |].
Qed.

Lemma json_dumps_document (h : heap) (v : value) (indent : Z) :
  json_dumps h v indent
  = obind (py_document h v)
          (fun d => Ok (render (str_mul " " (Z.to_nat indent)) 0 d)).
Proof.
  destruct (fuel_enough h v indent) as [_ Hi].
  rewrite iterencode_document in Hi.
  unfold py_document, run_fueled.
  destruct (document h (length h) [] v) as [[d | e] |]; simpl in *;
    [now injection Hi | now injection Hi | discriminate].
Qed.

(** C3, as stated, fails: a list that contains itself has no structured
    serialization and is rendered by [str]; and a tuple, an ordered sequence,
    is rendered by [str] although it has one. *)
Lemma format_payload_not_always_structured :
  (json_dumps odd_heap (VRef 1) 2 = Raise ValueError /\
   _format_payload odd_heap (VRef 1) 2 = Ok "[[...]]") /\
  (json_dumps odd_heap (VRef 3) 2 = Ok (render "  " 0 (JArr [JInt 1; JInt 2])) /\
   _format_payload odd_heap (VRef 3) 2 = Ok "(1, 2)").
Proof. repeat split. Qed.

(** C3, amended: for a dict or a list, [_format_payload] returns the layout,
    with [indent] spaces for each nesting level, of the document of the
    value, in which a leaf that JSON cannot hold is replaced by its [str];
    when there is no such document because the serialization raises an
    [Exception] (a container that contains itself, a key that is not a
    [str], number, [bool] or [None]), it returns [str(data)]; and for every
    other value, a tuple included, it returns [str(data)], or raises what
    [str] raises. *)
Theorem format_payload_by_cases (h : heap) (data : value) (indent : Z) :
  (is_dict_or_list h data = true ->
   (forall d, py_document h data = Ok d ->
      _format_payload h data indent
      = Ok (render (str_mul " " (Z.to_nat indent)) 0 d)) /\
   (forall e, py_document h data = Raise e -> is_Exception e = true ->
      _format_payload h data indent = py_str h data)) /\
  (is_dict_or_list h data = false ->
   _format_payload h data indent = py_str h data).
Proof.
  split; [intros Hc; split | apply format_payload_not_container].
  - intros d Hd. apply format_payload_serialized; [assumption |].
    now rewrite json_dumps_document, Hd.
  - intros e Hd He. apply format_payload_fallback with e; trivial.
    now rewrite json_dumps_document, Hd.
Qed.

Lemma format_payload_by_cases_witness :
  _format_payload mixed_heap (VRef 0) 2
  = Ok (render "  " 0
          (JObj [("a", JInt 1);
                 ("b", JArr [JInt 1; JArr [JBool true; JStr "x"]; JNull]);
                 ("7", JStr "1.50")])) /\
  _format_payload cyclic_heap (VRef 0) 2 = py_str cyclic_heap (VRef 0) /\
  _format_payload mixed_heap (VRef 3) 2 = py_str mixed_heap (VRef 3).
Proof.
  destruct (format_payload_by_cases mixed_heap (VRef 0) 2) as [Hc _].
  destruct (Hc eq_refl) as [Hdoc _].
  destruct (format_payload_by_cases cyclic_heap (VRef 0) 2) as [Hc' _].
  destruct (Hc' eq_refl) as [_ Hfail].
  destruct (format_payload_by_cases mixed_heap (VRef 3) 2) as [_ Hother].
  split; [exact (Hdoc _ eq_refl) |].
  split; [exact (Hfail ValueError eq_refl eq_refl) | exact (Hother eq_refl)].
Defined.

(** ** The formatter depends on the objects the value holds *)






Section Agreement.

Variables h1 h2 : heap.



End Agreement.









(** ** Reading back the text of the encoder *)

Lemma str_app_assoc (a b c : string) : (a ++ b) ++ c = a ++ (b ++ c).
Proof. induction a as [| x a IH]; simpl; [reflexivity | now rewrite IH]. Qed.

Lemma skip_ws_spaces (n : nat) (s : string) :
  skip_ws (str_mul " " n ++ s) = skip_ws s.
Proof. induction n as [| n IH]; simpl; [reflexivity | exact IH]. Qed.

Lemma skip_ws_indent (n level : nat) (s : string) :
  skip_ws (str_mul (str_mul " " n) level ++ s) = skip_ws s.
Proof.
  induction level as [| k IH]; simpl; [reflexivity |].
  now rewrite str_app_assoc, skip_ws_spaces.
Qed.

Lemma skip_ws_line (n level : nat) (s : string) :
  skip_ws ((nl ++ str_mul (str_mul " " n) level) ++ s) = skip_ws s.
Proof. rewrite str_app_assoc. simpl. apply skip_ws_indent. Qed.

(** *** Strings *)

Lemma scan_string_escape_char (c : ascii) (tail : string) :
  scan_string (json_escape_char c ++ tail)
  = match scan_string tail with
    | Some (body, after) => Some (String c body, after)
    | None => None
    end.
Proof.
  destruct c as [[|] [|] [|] [|] [|] [|] [|] [|]]; reflexivity.
Qed.

Lemma scan_string_escaped (s rest : string) :
  scan_string (str_concat_map json_escape_char s ++ chr 34 ++ rest) = Some (s, rest).
Proof.
  induction s as [| c s IH]; [reflexivity |].
  cbn [str_concat_map]. now rewrite str_app_assoc, scan_string_escape_char, IH.
Qed.

(** *** Integers *)

Lemma scan_digits_stop (acc : Z) (count : nat) (rest : string) :
  ends_number rest = true -> scan_digits acc count rest = (acc, count, rest).
Proof.
  destruct rest as [| c r]; simpl; [reflexivity |].
  intros H. apply andb_true_iff in H as [H _].
  now destruct (is_digit c).
Qed.

Lemma scan_digits_uint (u : uint) :
  forall (acc : Z) (count : nat) (rest : string),
    ends_number rest = true ->
    scan_digits acc count (NilEmpty.string_of_uint u ++ rest)
    = (uint_acc u acc, count + nb_digits u, rest).
Proof.
  induction u as [| u IH | u IH | u IH | u IH | u IH | u IH | u IH | u IH | u IH | u IH];
    intros acc count rest Hrest.
  1: { simpl. rewrite Nat.add_0_r. now apply scan_digits_stop. }
  all: cbn [NilEmpty.string_of_uint append scan_digits nb_digits uint_acc];
    change (is_digit _) with true; cbv iota;
    rewrite IH by assumption.
  all: match goal with
       | |- context [Z.of_nat ?n] =>
           let v := eval vm_compute in (Z.of_nat n) in
           change (Z.of_nat n) with v
       end.
  all: rewrite ?Z.add_0_r; f_equal; f_equal; lia.
Qed.

Lemma uint_acc_pos (u : uint) :
  forall a : positive, uint_acc u (Zpos a) = Zpos (Pos.of_uint_acc u a).
Proof.
  induction u; intros a; cbn [uint_acc Pos.of_uint_acc]; trivial;
    match goal with
    | |- uint_acc _ ?z = Zpos (Pos.of_uint_acc _ ?p) =>
        replace z with (Zpos p) by lia
    end; apply IHu.
Qed.

Lemma uint_acc_zero (u : uint) : uint_acc u 0 = Z.of_N (Pos.of_uint u).
Proof.
  induction u; cbn [uint_acc Pos.of_uint]; trivial; try exact IHu;
    match goal with
    | |- uint_acc _ ?z = _ =>
        let v := eval vm_compute in z in change z with v
    end; apply uint_acc_pos.
Qed.

Lemma uint_acc_to_uint (p : positive) : uint_acc (Pos.to_uint p) 0 = Zpos p.
Proof. now rewrite uint_acc_zero, DecimalPos.Unsigned.of_to. Qed.

(** The decimal digits of a positive number do not start with a zero. *)
Lemma to_uint_no_leading_zero (p : positive) (u : uint) :
  Pos.to_uint p <> D0 u.
Proof.
  intros H.
  assert (unorm (Pos.to_uint p) = Pos.to_uint p) as Hn.
  { rewrite <- (DecimalPos.Unsigned.to_of (Pos.to_uint p)).
    now rewrite DecimalPos.Unsigned.of_to. }
  rewrite H in Hn. change (unorm (D0 u)) with (unorm u) in Hn.
  destruct (uint_eq_dec u Nil) as [-> | Hne].
  - apply (DecimalPos.Unsigned.to_uint_nonzero p). now rewrite H.
  - pose proof (DecimalFacts.nb_digits_unorm u Hne) as Hlen.
    rewrite Hn in Hlen. simpl in Hlen. lia.
Qed.

Lemma ends_number_no_fraction (rest : string) :
  ends_number rest = true -> starts_fraction rest = false.
Proof.
  destruct rest as [| c r]; [reflexivity |]. unfold ends_number.
  intros H. apply andb_true_iff in H as [_ H]. now apply negb_true_iff in H.
Qed.

(** The digits of a positive number, read back. *)
Lemma scan_digits_positive (p : positive) (rest : string) :
  ends_number rest = true ->
  exists c digits count,
    NilEmpty.string_of_uint (Pos.to_uint p) = String c digits /\
    is_digit c = true /\ Ascii.eqb c "0" = false /\
    scan_digits 0 0 (String c digits ++ rest) = (Zpos p, S count, rest).
Proof.
  intros Hrest.
  pose proof (scan_digits_uint (Pos.to_uint p) 0 0 rest Hrest) as Hscan.
  rewrite uint_acc_to_uint in Hscan.
  pose proof (DecimalPos.Unsigned.to_uint_nonnil p) as Hnil.
  pose proof (to_uint_no_leading_zero p) as Hzero.
  destruct (Pos.to_uint p) as [| u | u | u | u | u | u | u | u | u | u];
    [contradiction | now destruct (Hzero u) | ..];
    cbn [NilEmpty.string_of_uint nb_digits Nat.add] in *;
    eexists; eexists; eexists; (split; [reflexivity |]);
    (split; [reflexivity |]); (split; [reflexivity |]); exact Hscan.
Qed.

Lemma prefix_head_differs (a c : ascii) (s r : string) :
  Ascii.eqb c a = false -> prefix (String a s) (String c r) = false.
Proof.
  intros H. change (prefix (String a s) (String c r))
    with (if ascii_dec a c then prefix s r else false).
  destruct (ascii_dec a c) as [-> | _]; [| reflexivity].
  now rewrite Ascii.eqb_refl in H.
Qed.

Lemma scan_int_repr (z : Z) (rest : string) :
  ends_number rest = true -> scan_int (int_repr z ++ rest) = Some (z, rest).
Proof.
  intros Hrest. pose proof (ends_number_no_fraction rest Hrest) as Hfrac.
  unfold int_repr. destruct z as [| p | p]; cbn [Z.to_int NilZero.string_of_int].
  - unfold scan_int. simpl. rewrite (scan_digits_stop _ _ rest Hrest).
    cbn. now rewrite andb_false_r, Hfrac.
  - destruct (scan_digits_positive p rest Hrest)
      as [c [digits [count [Hs [Hd [Hz Hscan]]]]]].
    assert (NilZero.string_of_uint (Pos.to_uint p) = String c digits) as ->.
    { unfold NilZero.string_of_uint. rewrite <- Hs.
      pose proof (DecimalPos.Unsigned.to_uint_nonnil p).
      now destruct (Pos.to_uint p). }
    unfold scan_int.
    assert (starts_with "-" (String c digits ++ rest) = None) as ->.
    { simpl. destruct (Ascii.eqb_spec c "-"); [subst; discriminate | reflexivity]. }
    rewrite Hscan.
    assert (prefix "0" (String c digits ++ rest) = false) as ->
      by (now apply prefix_head_differs).
    simpl. now rewrite Hfrac.
  - destruct (scan_digits_positive p rest Hrest)
      as [c [digits [count [Hs [Hd [Hz Hscan]]]]]].
    assert (NilZero.string_of_uint (Pos.to_uint p) = String c digits) as ->.
    { unfold NilZero.string_of_uint. rewrite <- Hs.
      pose proof (DecimalPos.Unsigned.to_uint_nonnil p).
      now destruct (Pos.to_uint p). }
    unfold scan_int.
    change (starts_with "-" (String "-" (String c digits) ++ rest))
      with (Some (String c digits ++ rest)).
    cbv iota beta. rewrite Hscan.
    assert (prefix "0" (String c digits ++ rest) = false) as ->
      by (now apply prefix_head_differs).
    simpl. now rewrite Hfrac.
Qed.

(** *** Values *)

Lemma value_head_facts (c : ascii) :
  value_head c = true ->
  is_ws c = false /\ Ascii.eqb c "]" = false /\ Ascii.eqb c "}" = false /\
  Ascii.eqb c "," = false.
Proof.
  destruct c as [[|] [|] [|] [|] [|] [|] [|] [|]]; intros H;
    try discriminate H; repeat split.
Qed.

Lemma skip_ws_head (c : ascii) (s : string) :
  is_ws c = false -> skip_ws (String c s) = String c s.
Proof. intros H. simpl. now rewrite H. Qed.

Lemma render_head (indent : string) (level : nat) (d : json) :
  exists c r, render indent level d = String c r /\ value_head c = true.
Proof.
  destruct d as [| [|] | z | s | [| x items] | [| x members]];
    try (eexists; eexists; split; [reflexivity | reflexivity]).
  cbn [render]. unfold int_repr. destruct z as [| p | p];
    try (eexists; eexists; split; [reflexivity | reflexivity]).
  destruct (scan_digits_positive p "" eq_refl) as [c [digits [count [Hs [Hd _]]]]].
  exists c, digits. split.
  - cbn [Z.to_int NilZero.string_of_int]. unfold NilZero.string_of_uint.
    rewrite <- Hs. pose proof (DecimalPos.Unsigned.to_uint_nonnil p).
    now destruct (Pos.to_uint p).
  - unfold value_head. now rewrite Hd.
Qed.

Lemma skip_ws_render (indent : string) (level : nat) (d : json) (s : string) :
  skip_ws (render indent level d ++ s) = render indent level d ++ s.
Proof.
  destruct (render_head indent level d) as [c [r [-> Hc]]].
  apply skip_ws_head. now apply value_head_facts.
Qed.

Lemma starts_with_render (indent : string) (level : nat) (d : json) (s : string)
      (c : ascii) :
  In c ["]"; "}"; ","]%char ->
  starts_with c (render indent level d ++ s) = None.
Proof.
  destruct (render_head indent level d) as [x [r [-> Hx]]].
  destruct (value_head_facts x Hx) as [_ [H1 [H2 H3]]].
  intros [<- | [<- | [<- | []]]]; simpl; now rewrite ?H1, ?H2, ?H3.
Qed.

Lemma substring_all (s : string) : substring 0 (String.length s) s = s.
Proof. induction s as [| c s IH]; simpl; [reflexivity | now rewrite IH]. Qed.

Lemma scan_value_number (f : nat) (c : ascii) (r : string) :
  (is_digit c || Ascii.eqb c "-") = true ->
  scan_value (S f) (String c r)
  = match scan_int (String c r) with
    | Some (z, after) => Some (JInt z, after)
    | None => None
    end.
Proof.
  destruct c as [[|] [|] [|] [|] [|] [|] [|] [|]]; intros H;
    try discriminate H; reflexivity.
Qed.

Lemma prefix_nil (s : string) : prefix "" s = true.
Proof. now destruct s. Qed.

Lemma scan_value_scalar (f : nat) (indent : string) (level : nat) (d : json)
      (rest : string) :
  match d with
  | JArr (_ :: _) | JObj (_ :: _) => False
  | _ => True
  end ->
  ends_number rest = true ->
  scan_value (S f) (render indent level d ++ rest) = Some (d, rest).
Proof.
  intros Hd Hrest.
  destruct d as [| [|] | z | s | [| x items] | [| x members]];
    try contradiction.
  - cbn [render append scan_value]. simpl.
    unfold drop. simpl. now rewrite prefix_nil, Nat.sub_0_r, substring_all.
  - cbn [render append scan_value]. simpl.
    unfold drop. simpl. now rewrite prefix_nil, Nat.sub_0_r, substring_all.
  - cbn [render append scan_value]. simpl.
    unfold drop. simpl. now rewrite prefix_nil, Nat.sub_0_r, substring_all.
  - cbn [render].
    pose proof (scan_int_repr z rest Hrest) as Hint.
    destruct (render_head indent level (JInt z)) as [c [r [Hr Hc]]].
    cbn [render] in Hr. rewrite Hr in *.
    change (String c r ++ rest) with (String c (r ++ rest)) in *.
    rewrite scan_value_number, Hint; [reflexivity |].
    clear Hint. revert Hc. unfold int_repr in Hr.
    destruct z as [| p | p]; cbn [Z.to_int NilZero.string_of_int] in Hr.
    + injection Hr as <- _. reflexivity.
    + destruct (scan_digits_positive p "" eq_refl) as [c' [ds [n [Hs [Hd' _]]]]].
      unfold NilZero.string_of_uint in Hr. pose proof (DecimalPos.Unsigned.to_uint_nonnil p).
      assert (String c r = String c' ds) as Heq
        by (rewrite <- Hr, <- Hs; now destruct (Pos.to_uint p)).
      injection Heq as -> _. now rewrite Hd'.
    + injection Hr as <- _. reflexivity.
  - cbn [render]. unfold encode_basestring_ascii.
    change (chr 34 ++ ?x) with (String (ascii_of_nat 34) x).
    cbn [append scan_value]. simpl (nat_of_ascii _ =? 34)%nat. cbv iota.
    now rewrite str_app_assoc, scan_string_escaped.
  - reflexivity.
  - reflexivity.
Qed.

(** *** Containers *)

Section ReadBack.

Variable width : nat.

Let indent : string := str_mul " " width.

Lemma render_array (level : nat) (x : json) (items : list json) (rest : string) :
  render indent level (JArr (x :: items)) ++ rest
  = String "[" ((nl ++ str_mul indent (S level))
                  ++ items_text indent (S level) (x :: items)
                       (nl ++ str_mul indent level ++ "]" ++ rest)).
Proof.
  unfold items_text. cbn [render]. cbn [append].
  rewrite !str_app_assoc. reflexivity.
Qed.

Lemma render_object (level : nat) (x : string * json) (members : list (string * json))
      (rest : string) :
  render indent level (JObj (x :: members)) ++ rest
  = String "{" ((nl ++ str_mul indent (S level))
                  ++ members_text indent (S level) (x :: members)
                       (nl ++ str_mul indent level ++ "}" ++ rest)).
Proof.
  unfold members_text, member_text. cbn [render]. cbn [append].
  rewrite !str_app_assoc. reflexivity.
Qed.

Lemma items_text_one (level : nat) (d : json) (tail : string) :
  items_text indent level [d] tail = render indent level d ++ tail.
Proof. reflexivity. Qed.

Lemma items_text_more (level : nat) (d d' : json) (ds : list json) (tail : string) :
  items_text indent level (d :: d' :: ds) tail
  = render indent level d
      ++ String "," ((nl ++ str_mul indent level) ++ items_text indent level (d' :: ds) tail).
Proof.
  unfold items_text. cbn [map join]. rewrite !str_app_assoc. reflexivity.
Qed.

Lemma members_text_one (level : nat) (key : string) (d : json) (tail : string) :
  members_text indent level [(key, d)] tail
  = String (ascii_of_nat 34)
      (str_concat_map json_escape_char key
         ++ chr 34 ++ String ":" (String " " (render indent level d ++ tail))).
Proof.
  unfold members_text, member_text, encode_basestring_ascii.
  cbn [map join fst snd]. rewrite !str_app_assoc. reflexivity.
Qed.

Lemma members_text_more (level : nat) (key : string) (d : json)
      (m : string * json) (ms : list (string * json)) (tail : string) :
  members_text indent level ((key, d) :: m :: ms) tail
  = String (ascii_of_nat 34)
      (str_concat_map json_escape_char key
         ++ chr 34
         ++ String ":" (String " "
              (render indent level d
                 ++ String "," ((nl ++ str_mul indent level)
                                  ++ members_text indent level (m :: ms) tail)))).
Proof.
  unfold members_text, member_text, encode_basestring_ascii.
  cbn [map join fst snd]. rewrite !str_app_assoc. reflexivity.
Qed.

Lemma closes_line (close : ascii) (level : nat) (rest : string) :
  is_ws close = false ->
  closes close (nl ++ str_mul indent level ++ String close rest) rest.
Proof.
  intros Hc. split; [reflexivity |].
  change (nl ++ ?x) with (String (ascii_of_nat 10) x). cbn [skip_ws].
  change (is_ws (ascii_of_nat 10)) with true. cbv iota.
  unfold indent. rewrite skip_ws_indent. now apply skip_ws_head.
Qed.

Lemma skip_ws_indent_line (level : nat) (s : string) :
  skip_ws ((nl ++ str_mul indent level) ++ s) = skip_ws s.
Proof. apply skip_ws_line. Qed.

Lemma read_back (f : nat) :
  (forall d level rest,
      need d <= f -> ends_number rest = true ->
      scan_value f (render indent level d ++ rest) = Some (d, rest)) /\
  (forall ds level tail rest,
      ds <> [] -> need_items ds <= f -> closes "]" tail rest ->
      scan_items f (items_text indent level ds tail) = Some (ds, rest)) /\
  (forall ms level tail rest,
      ms <> [] -> need_members ms <= f -> closes "}" tail rest ->
      scan_members f (members_text indent level ms tail) = Some (ms, rest)).
Proof.
  induction f as [| f [IHvalue [IHitems IHmembers]]].
  - split; [| split].
    + intros d level rest Hneed. destruct d; simpl in Hneed; lia.
    + intros [| d ds] level tail rest Hne Hneed; [contradiction |].
      unfold need_items in Hneed. simpl in Hneed. lia.
    + intros [| m ms] level tail rest Hne Hneed; [contradiction |].
      unfold need_members in Hneed. simpl in Hneed. lia.
  - split; [| split].
    + intros d level rest Hneed Hrest.
      destruct d as [| b | z | s | [| x items] | [| x members]];
        try (apply scan_value_scalar; [exact I | assumption]).
      * rewrite render_array. cbn [scan_value].
        simpl (nat_of_ascii _ =? _)%nat. cbv iota. cbv zeta.
        rewrite !skip_ws_indent_line.
        assert (skip_ws (items_text indent (S level) (x :: items)
                           (nl ++ str_mul indent level ++ "]" ++ rest))
                = items_text indent (S level) (x :: items)
                    (nl ++ str_mul indent level ++ "]" ++ rest)) as ->.
        { destruct items as [| x' items];
            [rewrite items_text_one | rewrite items_text_more];
            apply skip_ws_render. }
        assert (starts_with "]" (items_text indent (S level) (x :: items)
                                   (nl ++ str_mul indent level ++ "]" ++ rest))
                = None) as ->.
        { destruct items as [| x' items];
            [rewrite items_text_one | rewrite items_text_more];
            apply starts_with_render; simpl; auto. }
        rewrite (IHitems (x :: items) (S level) _ rest); trivial.
        -- discriminate.
        -- simpl in Hneed. unfold need_items. simpl. lia.
        -- now apply closes_line.
      * rewrite render_object. cbn [scan_value].
        simpl (nat_of_ascii _ =? _)%nat. cbv iota. cbv zeta.
        rewrite !skip_ws_indent_line.
        destruct x as [key d].
        assert (exists tail', members_text indent (S level) ((key, d) :: members)
                                (nl ++ str_mul indent level ++ "}" ++ rest)
                              = String (ascii_of_nat 34) tail') as [tail' Htail].
        { destruct members as [| m members];
            [rewrite members_text_one | rewrite members_text_more]; eauto. }
        rewrite Htail. rewrite skip_ws_head by reflexivity.
        change (starts_with "}" (String (ascii_of_nat 34) tail')) with (@None string).
        cbv iota. rewrite <- Htail.
        rewrite (IHmembers ((key, d) :: members) (S level) _ rest); trivial.
        -- discriminate.
        -- simpl in Hneed. unfold need_members. simpl. lia.
        -- now apply closes_line.
    + intros [| d ds] level tail rest Hne Hneed [Htail Hclose]; [contradiction |].
      unfold need_items in Hneed. cbn [map list_sum] in Hneed.
      cbn [scan_items]. destruct ds as [| d' ds].
      * rewrite items_text_one, IHvalue by (trivial; simpl in *; lia).
        cbv zeta. rewrite Hclose. simpl. reflexivity.
      * rewrite items_text_more, IHvalue by (trivial; simpl in *; lia).
        cbv zeta. rewrite skip_ws_head by reflexivity.
        change (starts_with "]" (String "," ?x)) with (@None string).
        change (starts_with "," (String "," ?x)) with (Some x).
        cbv iota. rewrite !skip_ws_indent_line.
        assert (skip_ws (items_text indent level (d' :: ds) tail)
                = items_text indent level (d' :: ds) tail) as ->.
        { destruct ds as [| d'' ds];
            [rewrite items_text_one | rewrite items_text_more];
            apply skip_ws_render. }
        rewrite (IHitems (d' :: ds) level tail rest); trivial.
        -- discriminate.
        -- unfold need_items. simpl in *. lia.
        -- now split.
    + intros [| [key d] ms] level tail rest Hne Hneed [Htail Hclose];
        [contradiction |].
      unfold need_members in Hneed. cbn [map list_sum snd] in Hneed.
      cbn [scan_members]. destruct ms as [| m ms].
      * rewrite members_text_one.
        change (starts_with (ascii_of_nat 34) (String (ascii_of_nat 34) ?x))
          with (Some x).
        cbv iota. rewrite scan_string_escaped.
        rewrite skip_ws_head by reflexivity.
        change (starts_with ":" (String ":" ?x)) with (Some x). cbv iota.
        change (skip_ws (String " " ?x)) with (skip_ws x).
        rewrite skip_ws_render, IHvalue by (trivial; simpl in *; lia).
        cbv zeta. rewrite Hclose. simpl. reflexivity.
      * rewrite members_text_more.
        change (starts_with (ascii_of_nat 34) (String (ascii_of_nat 34) ?x))
          with (Some x).
        cbv iota. rewrite scan_string_escaped.
        rewrite skip_ws_head by reflexivity.
        change (starts_with ":" (String ":" ?x)) with (Some x). cbv iota.
        change (skip_ws (String " " ?x)) with (skip_ws x).
        rewrite skip_ws_render, IHvalue by (trivial; simpl in *; lia).
        cbv zeta. rewrite skip_ws_head by reflexivity.
        change (starts_with "}" (String "," ?x)) with (@None string).
        change (starts_with "," (String "," ?x)) with (Some x).
        cbv iota. rewrite !skip_ws_indent_line.
        assert (exists tail', members_text indent level (m :: ms) tail
                              = String (ascii_of_nat 34) tail') as [tail' Htail'].
        { destruct m as [key' d']. destruct ms as [| m' ms];
            [rewrite members_text_one | rewrite members_text_more]; eauto. }
        rewrite Htail', skip_ws_head by reflexivity. rewrite <- Htail'.
        rewrite (IHmembers (m :: ms) level tail rest); trivial.
        -- discriminate.
        -- unfold need_members. simpl in *. lia.
        -- now split.
Qed.

End ReadBack.

(** *** Whole texts *)

(** Induction on documents, with the hypothesis for every item of a
    container. *)
Lemma json_induction (P : json -> Prop) :
  P JNull -> (forall b, P (JBool b)) -> (forall z, P (JInt z)) ->
  (forall s, P (JStr s)) ->
  (forall items, Forall P items -> P (JArr items)) ->
  (forall members, Forall (fun kv => P (snd kv)) members -> P (JObj members)) ->
  forall d, P d.
Proof.
  intros P_null P_bool P_int P_str P_arr P_obj.
  fix IH 1. intros d. destruct d as [| b | z | s | items | members].
  - exact P_null.
  - apply P_bool.
  - apply P_int.
  - apply P_str.
  - apply P_arr. revert items. fix IHitems 1.
    intros [| x rest]; constructor; [apply IH | apply IHitems].
  - apply P_obj. revert members. fix IHmembers 1.
    intros [| x rest]; constructor; [apply IH | apply IHmembers].
Qed.

Lemma str_length_app (a b : string) :
  String.length (a ++ b) = String.length a + String.length b.
Proof. induction a as [| c a IH]; simpl; [reflexivity | now rewrite IH]. Qed.

Lemma str_app_nil_r (a : string) : a ++ "" = a.
Proof. induction a as [| c a IH]; simpl; [reflexivity | now rewrite IH]. Qed.

Lemma join_length {A} (text : A -> string) (cost : A -> nat) (sep : string)
      (xs : list A) :
  1 <= String.length sep ->
  Forall (fun x => cost x <= String.length (text x)) xs ->
  list_sum (map (fun x => S (cost x)) xs)
  <= String.length (join sep (map text xs)) + 1.
Proof.
  intros Hsep Hall. induction Hall as [| x rest Hx Hrest IH]; simpl; [lia |].
  destruct rest as [| y rest]; simpl in *; [lia |].
  rewrite !str_length_app. lia.
Qed.

Lemma need_le_length (indent : string) (d : json) :
  forall level, need d <= String.length (render indent level d).
Proof.
  induction d as [| b | z | s | items IH | members IH] using json_induction;
    intros level.
  - simpl. lia.
  - destruct b; simpl; lia.
  - destruct (render_head indent level (JInt z)) as [c [r [-> _]]]. simpl. lia.
  - simpl. lia.
  - destruct items as [| x items]; [simpl; lia |].
    cbn [render need]. rewrite !str_length_app.
    pose proof (@join_length _ (render indent (S level)) need
                  ("," ++ nl ++ str_mul indent (S level)) (x :: items)) as Hj.
    simpl String.length in *. 
    assert (Forall (fun d => need d <= String.length (render indent (S level) d))
                   (x :: items)) as Hall.
    { rewrite Forall_forall in *. intros d Hd. now apply IH. }
    specialize (Hj ltac:(lia) Hall). lia.
  - destruct members as [| x members]; [simpl; lia |].
    cbn [render need]. rewrite !str_length_app.
    pose proof (@join_length _
                  (fun kv => encode_basestring_ascii (fst kv) ++ ": "
                               ++ render indent (S level) (snd kv))
                  (fun kv => need (snd kv))
                  ("," ++ nl ++ str_mul indent (S level)) (x :: members)) as Hj.
    simpl String.length in *.
    assert (Forall (fun kv => need (snd kv)
                              <= String.length
                                   (encode_basestring_ascii (fst kv) ++ ": "
                                      ++ render indent (S level) (snd kv)))
                   (x :: members)) as Hall.
    { rewrite Forall_forall in *. intros kv Hkv.
      rewrite !str_length_app. specialize (IH kv Hkv (S level)). lia. }
    specialize (Hj ltac:(lia) Hall). lia.
Qed.

(** [json.loads] reads the layout of a document back as the document. *)
Lemma json_loads_render (width : nat) (d : json) :
  json_loads (render (str_mul " " width) 0 d) = Some d.
Proof.
  unfold json_loads.
  pose proof (skip_ws_render (str_mul " " width) 0 d "") as Hskip.
  rewrite str_app_nil_r in Hskip. rewrite Hskip.
  destruct (read_back width (S (String.length (render (str_mul " " width) 0 d))))
    as [Hvalue _].
  specialize (Hvalue d 0 "").
  rewrite str_app_nil_r in Hvalue. rewrite Hvalue; [reflexivity | | reflexivity].
  pose proof (need_le_length (str_mul " " width) d 0). lia.
Qed.

(** ** Values that are JSON data *)

Section SameData.

Variable h : heap.

Lemma same_data_arr (ds : list json) (v : value) :
  same_data h (JArr ds) v = true <->
  exists l items, v = VRef l /\ deref h l = HList items /\ Forall2 (same_item h) ds items.
Proof.
  split.
  - destruct v as [| b | z | s | l]; try discriminate. cbn [same_data].
    destruct (deref h l) as [items | | |] eqn:Hderef; try discriminate.
    intros H. exists l, items. split; [reflexivity |]. split; [exact Hderef |].
    clear Hderef.
    revert items H. induction ds as [| d ds IH]; intros [| x items] H;
      try discriminate; constructor.
    + apply andb_true_iff in H. apply H.
    + apply IH. apply andb_true_iff in H. apply H.
  - intros [l [items [-> [Hd Hall]]]]. cbn [same_data]. rewrite Hd. clear Hd.
    induction Hall as [| d x ds items Hx _ IH]; [reflexivity |].
    apply andb_true_iff. split; [exact Hx | exact IH].
Qed.

Lemma same_data_obj (ms : list (string * json)) (v : value) :
  same_data h (JObj ms) v = true <->
  exists l entries,
    v = VRef l /\ deref h l = HDict entries /\ Forall2 (same_member h) ms entries.
Proof.
  split.
  - destruct v as [| b | z | s | l]; try discriminate. cbn [same_data].
    destruct (deref h l) as [| | entries |] eqn:Hderef; try discriminate.
    intros H. exists l, entries. split; [reflexivity |]. split; [exact Hderef |].
    clear Hderef.
    revert entries H.
    induction ms as [| [k d] ms IH]; intros [| [[| | | k' |] x] entries] H;
      try discriminate; constructor.
    + apply andb_true_iff in H as [H _]. apply andb_true_iff in H as [Hk Hx].
      apply String.eqb_eq in Hk. subst. now split.
    + apply IH. apply andb_true_iff in H. apply H.
  - intros [l [entries [-> [Hd Hall]]]]. cbn [same_data]. rewrite Hd. clear Hd.
    induction Hall as [| [k d] [kx x] ms entries [Hk Hx] _ IH]; [reflexivity |].
    simpl in Hk, Hx. subst kx.
    apply andb_true_iff. split; [| exact IH].
    apply andb_true_iff. split; [apply String.eqb_refl | exact Hx].
Qed.

Lemma same_data_unique (d1 : json) :
  forall d2 v, same_data h d1 v = true -> same_data h d2 v = true -> d1 = d2.
Proof.
  induction d1 as [| b | z | s | ds IH | ms IH] using json_induction;
    intros d2 v H1 H2.
  - destruct v; try discriminate. now destruct d2.
  - destruct v as [| b' | | |]; try discriminate. destruct d2; try discriminate.
    simpl in *. apply Bool.eqb_prop in H1, H2. congruence.
  - destruct v as [| | z' | |]; try discriminate. destruct d2; try discriminate.
    simpl in *. apply Z.eqb_eq in H1, H2. congruence.
  - destruct v as [| | | s' |]; try discriminate. destruct d2; try discriminate.
    simpl in *. apply String.eqb_eq in H1, H2. congruence.
  - apply same_data_arr in H1 as [l [items [-> [Hd Hall]]]].
    destruct d2 as [| | | | ds2 | ms2]; try discriminate.
    + apply same_data_arr in H2 as [l' [items' [Hv [Hd' Hall']]]].
      injection Hv as <-. rewrite Hd in Hd'. injection Hd' as <-.
      f_equal. clear Hd. revert ds2 Hall'.
      induction Hall as [| d x ds items Hx Hall IHall]; intros ds2 Hall';
        inversion Hall' as [| d2 x' ds2' items' Hx' Hall'' ]; subst; [reflexivity |].
      inversion IH as [| ? ? IHd IHds]; subst.
      f_equal; [now apply (IHd d2 x) | now apply IHall].
    + apply same_data_obj in H2 as [l' [entries [Hv [Hd' _]]]].
      injection Hv as <-. rewrite Hd in Hd'. discriminate.
  - apply same_data_obj in H1 as [l [entries [-> [Hd Hall]]]].
    destruct d2 as [| | | | ds2 | ms2]; try discriminate.
    + apply same_data_arr in H2 as [l' [items [Hv [Hd' _]]]].
      injection Hv as <-. rewrite Hd in Hd'. discriminate.
    + apply same_data_obj in H2 as [l' [entries' [Hv [Hd' Hall']]]].
      injection Hv as <-. rewrite Hd in Hd'. injection Hd' as <-.
      f_equal. clear Hd. revert ms2 Hall'.
      induction Hall as [| [k d] [kx x] ms entries [Hk Hx] Hall IHall];
        intros ms2 Hall';
        inversion Hall' as [| [k2 d2] e ms2' entries' [Hk' Hx'] Hall'']; subst;
        [reflexivity |].
      inversion IH as [| ? ? IHd IHms]; subst. simpl in *.
      f_equal; [| now apply IHall].
      f_equal; [congruence | now apply (IHd d2 x)].
Qed.

Lemma above_not_on_path (path : list loc) (d : json) (l : loc) :
  above h path d -> same_data h d (VRef l) = true -> on_path l path = false.
Proof.
  intros Habove Hd. destruct (on_path l path) eqn:Hon; [| reflexivity].
  unfold on_path in Hon. apply existsb_exists in Hon as [l' [Hin Heq]].
  apply Nat.eqb_eq in Heq. subst l'.
  specialize (Habove l d Hin Hd). lia.
Qed.

Lemma above_enter (path : list loc) (d d' : json) (l : loc) :
  above h path d -> same_data h d (VRef l) = true -> need d' < need d ->
  above h (l :: path) d'.
Proof.
  intros Habove Hd Hlt l' d'' [<- | Hin] Hd''.
  - assert (d = d'') as <- by (eapply same_data_unique; eassumption). exact Hlt.
  - specialize (Habove l' d'' Hin Hd''). lia.
Qed.

Lemma need_item (ds : list json) (d : json) :
  In d ds -> need d < need (JArr ds).
Proof.
  intros Hin. cbn [need]. induction ds as [| x ds IH]; [contradiction |].
  simpl. destruct Hin as [-> | Hin]; [lia | specialize (IH Hin); lia].
Qed.

Lemma need_member (ms : list (string * json)) (m : string * json) :
  In m ms -> need (snd m) < need (JObj ms).
Proof.
  intros Hin. cbn [need]. induction ms as [| x ms IH]; [contradiction |].
  simpl. destruct Hin as [-> | Hin]; [lia | specialize (IH Hin); lia].
Qed.

Lemma fmap_seq_forall2 {A B} (R : B -> A -> Prop) (f : A -> fueled B)
      (ys : list B) (xs : list A) :
  Forall2 R ys xs ->
  (forall y x, In y ys -> R y x -> forall r, f x = Some r -> r = Ok y) ->
  forall r, fmap_seq f xs = Some r -> r = Ok ys.
Proof.
  induction 1 as [| y x ys xs Hyx Hall IH]; intros Hf r; simpl.
  - intros Hr. injection Hr as <-. reflexivity.
  - destruct (f x) as [rx |] eqn:Hx; [| discriminate].
    rewrite (Hf y x (or_introl eq_refl) Hyx rx Hx). simpl.
    destruct (fmap_seq f xs) as [rs |] eqn:Hxs; [| discriminate].
    rewrite (IH (fun y' x' Hin => Hf y' x' (or_intror Hin)) rs eq_refl).
    simpl. intros Hr. now injection Hr as <-.
Qed.

Lemma document_of_same_data (d : json) :
  forall v fuel path r,
    same_data h d v = true -> above h path d ->
    document h fuel path v = Some r -> r = Ok d.
Proof.
  induction d as [| b | z | s | ds IH | ms IH] using json_induction;
    intros v fuel path r Hd Habove Hr.
  - destruct v; try discriminate. destruct fuel; simpl in Hr; now injection Hr as <-.
  - destruct v as [| b' | | |]; try discriminate.
    simpl in Hd. apply Bool.eqb_prop in Hd. subst.
    destruct fuel; simpl in Hr; now injection Hr as <-.
  - destruct v as [| | z' | |]; try discriminate.
    simpl in Hd. apply Z.eqb_eq in Hd. subst.
    destruct fuel; simpl in Hr; now injection Hr as <-.
  - destruct v as [| | | s' |]; try discriminate.
    simpl in Hd. apply String.eqb_eq in Hd. subst.
    destruct fuel; simpl in Hr; now injection Hr as <-.
  - pose proof Hd as Hd'.
    apply same_data_arr in Hd' as [l [items [-> [Hderef Hall]]]].
    pose proof (@above_not_on_path path (JArr ds) l Habove Hd) as Hoff.
    destruct fuel as [| f]; cbn [document] in Hr; rewrite Hderef, Hoff in Hr;
      (destruct items as [| x items];
       [ inversion Hall; subst; simpl in Hr; now injection Hr as <- | ]);
      cbv [is_empty] in Hr; [discriminate |].
    destruct (fmap_seq (document h f (l :: path)) (x :: items)) as [rs |] eqn:Hrs;
      [| discriminate].
    assert (rs = Ok ds) as ->.
    { apply (@fmap_seq_forall2 _ _ (same_item h) (document h f (l :: path))
               ds (x :: items) Hall); [| exact Hrs].
      intros y x' Hin Hyx r' Hr'. rewrite Forall_forall in IH.
      apply (IH y Hin x' f (l :: path)); trivial.
      apply above_enter with (JArr ds); trivial. now apply need_item. }
    simpl in Hr. now injection Hr as <-.
  - pose proof Hd as Hd'.
    apply same_data_obj in Hd' as [l [entries [-> [Hderef Hall]]]].
    pose proof (@above_not_on_path path (JObj ms) l Habove Hd) as Hoff.
    destruct fuel as [| f]; cbn [document] in Hr; rewrite Hderef, Hoff in Hr;
      (destruct entries as [| e entries];
       [ inversion Hall; subst; simpl in Hr; now injection Hr as <- | ]);
      cbv [is_empty] in Hr; [discriminate |].
    match type of Hr with
    | fbind (fmap_seq ?g _) _ = _ =>
        destruct (fmap_seq g (e :: entries)) as [rs |] eqn:Hrs; [| discriminate];
        assert (rs = Ok ms) as ->;
        [ apply (@fmap_seq_forall2 _ _ (same_member h) g ms (e :: entries) Hall);
          [| exact Hrs]
        | simpl in Hr; now injection Hr as <- ]
    end.
    intros [k y] [kx x'] Hin [Hk Hyx] r'. simpl in Hk, Hyx. subst kx.
    cbn [fst snd json_key fbind].
    destruct (document h f (l :: path) x') as [rx |] eqn:Hx; [| discriminate].
    rewrite Forall_forall in IH.
    assert (rx = Ok y) as ->.
    { apply (IH (k, y) Hin x' f (l :: path)); trivial.
      apply above_enter with (JObj ms); trivial.
      now apply (@need_member ms (k, y)). }
    simpl. intros Hr'. now injection Hr' as <-.
Qed.

Lemma py_document_of_same_data (d : json) (v : value) :
  same_data h d v = true -> py_document h v = Ok d.
Proof.
  intros Hd. unfold py_document.
  pose proof (@iterencode_fuel h "" (length h) [] 0 v (path_ok_nil h)) as Hfuel.
  rewrite iterencode_document in Hfuel.
  destruct (document h (length h) [] v) as [r |] eqn:Hr.
  - simpl. apply (@document_of_same_data d v (length h) [] r Hd); trivial.
    intros l d' [].
  - exfalso. apply Hfuel; [simpl; lia | reflexivity].
Qed.

End SameData.

(** ** The example of the specification *)

(** The text of a dict or list whose serialization succeeds is read back as
    its document. *)
Lemma format_payload_parses_back (h : heap) (data : value) (indent : Z) (d : json) :
  is_dict_or_list h data = true -> py_document h data = Ok d ->
  exists text, _format_payload h data indent = Ok text /\ json_loads text = Some d.
Proof.
  intros Hc Hd. exists (render (str_mul " " (Z.to_nat indent)) 0 d). split.
  - apply format_payload_serialized; [assumption |].
    now rewrite json_dumps_document, Hd.
  - apply json_loads_render.
Qed.

(** C6: formatted with indent 2, the mapping [{"a": 1, "b": [1, 2, 3]}]
    gives a text that contains both keys and that [json.loads] reads back
    as the same mapping; and so does, with any indent, every dict or list
    that is JSON data (the same data as some document). *)
Theorem mapping_round_trip :
  (exists text,
      _format_payload example_heap (VRef 0) 2 = Ok text /\
      contains (encode_basestring_ascii "a") text = true /\
      contains (encode_basestring_ascii "b") text = true /\
      json_loads text = Some example_document /\
      same_data example_heap example_document (VRef 0) = true) /\
  (forall h data indent d,
      is_dict_or_list h data = true -> same_data h d data = true ->
      exists text,
        _format_payload h data indent = Ok text /\ json_loads text = Some d).
Proof.
  split.
  - eexists. split; [reflexivity |]. repeat split.
  - intros h data indent d Hc Hd.
    apply format_payload_parses_back; [assumption |].
    now apply py_document_of_same_data.
Qed.

Lemma mapping_round_trip_witness :
  exists text,
    _format_payload nested_heap (VRef 0) 4 = Ok text /\
    json_loads text
    = Some (JArr [JObj [("k", JArr []); ("n", JNull)];
                  JStr "x"; JInt (-12); JBool true]).
Proof.
  destruct mapping_round_trip as [_ Hall].
  apply (Hall nested_heap (VRef 0) 4%Z); reflexivity.
Defined.

(** * Further properties of the module *)

(** ** Payloads that are not serialized *)

Lemma fmap_seq_ok_in {A B} (f : A -> fueled B) (xs : list A) (ys : list B) (x : A) :
  fmap_seq f xs = Some (Ok ys) -> In x xs -> exists y, f x = Some (Ok y).
Proof.
  revert ys. induction xs as [| a rest IH]; intros ys H Hin; [contradiction |].
  cbn [fmap_seq] in H.
  apply fbind_ok_inv in H as [y [Hy H]].
  apply fbind_ok_inv in H as [ys' [Hys _]].
  destruct Hin as [-> | Hin]; [now exists y | now apply IH with ys'].
Qed.

Lemma on_path_cons (l l' : loc) (path : list loc) :
  on_path l (l' :: path) = (Nat.eqb l l' || on_path l path)%bool.
Proof. reflexivity. Qed.

(** A container that is serialized is not on the path, and each of its
    items is serialized below it. *)
Lemma iterencode_ok_item (h : heap) (indent : string) (fuel : nat)
      (path : list loc) (level : nat) (l : loc) (c : value) (t : string) :
  iterencode h indent fuel path level (VRef l) = Some (Ok t) ->
  In c (items_of h (VRef l)) ->
  on_path l path = false /\
  exists f t', fuel = S f /\
    iterencode h indent f (l :: path) (S level) c = Some (Ok t').
Proof.
  intros H Hc. cbn [items_of] in Hc.
  destruct fuel as [| f]; cbn [iterencode] in H;
    destruct (deref h l) as [items | items | entries | i]; try contradiction.
  all: try (destruct items as [| x items]; [contradiction |]).
  all: try (destruct entries as [| x entries]; [contradiction |]).
  all: cbn [is_empty] in H; destruct (on_path l path); try discriminate.
  all: split; [reflexivity |]; exists f.
  all: apply fbind_ok_inv in H as [chunks [H _]].
  - destruct (@fmap_seq_ok_in _ _ _ _ _ _ H Hc) as [y Hy]. now exists y.
  - destruct (@fmap_seq_ok_in _ _ _ _ _ _ H Hc) as [y Hy]. now exists y.
  - apply in_map_iff in Hc as [kv [<- Hc]].
    destruct (@fmap_seq_ok_in _ _ _ _ _ _ H Hc) as [y Hy].
    apply fbind_ok_inv in Hy as [key [_ Hy]].
    apply fbind_ok_inv in Hy as [chunk [Hy _]]. now exists chunk.
Qed.

(** What is nested in a value that is serialized is serialized too, on a
    path that extends the path of the value. *)
Lemma iterencode_ok_nested (h : heap) (indent : string) (v w : value) :
  nested_in h v w ->
  forall fuel path level t,
    iterencode h indent fuel path level v = Some (Ok t) ->
    exists fuel' path' level' t',
      iterencode h indent fuel' path' level' w = Some (Ok t') /\
      forall l, on_path l path = true -> on_path l path' = true.
Proof.
  induction 1 as [v | v c w Hc _ IH]; intros fuel path level t H.
  - exists fuel, path, level, t. now split.
  - destruct v as [| | | | l]; try contradiction.
    destruct (@iterencode_ok_item _ _ _ _ _ _ _ _ H Hc) as [_ [f [t' [_ Hc']]]].
    destruct (IH _ _ _ _ Hc') as [fuel' [path' [level' [t'' [Hw Hsub]]]]].
    exists fuel', path', level', t''. split; [assumption |].
    intros l0 Hl0. apply Hsub. rewrite on_path_cons, Hl0. apply orb_true_r.
Qed.

Lemma iterencode_cycle (h : heap) (indent : string) (w : value)
      (fuel : nat) (path : list loc) (level : nat) (t : string) :
  contains_itself h w ->
  iterencode h indent fuel path level w <> Some (Ok t).
Proof.
  intros [c [Hc Hn]] H.
  destruct w as [| | | | l]; try contradiction.
  destruct (@iterencode_ok_item _ _ _ _ _ _ _ _ H Hc) as [_ [f [t' [_ Hc']]]].
  destruct (@iterencode_ok_nested _ indent _ _ Hn _ _ _ _ Hc')
    as [fuel' [path' [level' [t'' [Hw Hsub]]]]].
  destruct (@iterencode_ok_item _ _ _ _ _ _ _ _ Hw Hc) as [Hoff _].
  rewrite Hsub in Hoff; [discriminate |].
  rewrite on_path_cons, Nat.eqb_refl. reflexivity.
Qed.

Lemma iterencode_unsupported_key (h : heap) (indent : string) (w : value)
      (fuel : nat) (path : list loc) (level : nat) (t : string) :
  has_unsupported_key h w = true ->
  iterencode h indent fuel path level w <> Some (Ok t).
Proof.
  unfold has_unsupported_key. intros Hk H.
  destruct w as [| | | | l]; try discriminate.
  destruct (deref h l) as [| | entries |] eqn:Hd; try discriminate.
  apply existsb_exists in Hk as [[k x] [Hin Hk]]. cbn [fst] in Hk.
  destruct k as [| | | | lk]; try discriminate.
  destruct fuel as [| f]; cbn [iterencode] in H; rewrite Hd in H;
    (destruct entries as [| e entries]; [contradiction |]);
    cbn [is_empty] in H; destruct (on_path l path); try discriminate.
  apply fbind_ok_inv in H as [chunks [H _]].
  destruct (@fmap_seq_ok_in _ _ _ _ _ _ H Hin) as [y Hy]. discriminate Hy.
Qed.

(** A value in which something that cannot be serialized is nested cannot be
    serialized. *)
Lemma json_dumps_raises_on_nested (h : heap) (data w : value) (indent : Z) :
  nested_in h data w ->
  (forall fuel path level t,
      iterencode h (str_mul " " (Z.to_nat indent)) fuel path level w <> Some (Ok t)) ->
  exists e, json_dumps h data indent = Raise e.
Proof.
  intros Hn Hw.
  destruct (json_dumps h data indent) as [t | e] eqn:E; [| now exists e].
  exfalso.
  destruct (fuel_enough h data indent) as [_ Hfuel]. rewrite E in Hfuel.
  destruct (@iterencode_ok_nested _ _ _ _ Hn _ _ _ _ Hfuel) as [f' [p' [l' [t' [Hok _]]]]].
  exact (Hw _ _ _ _ Hok).
Qed.

Lemma format_payload_falls_back (h : heap) (data : value) (indent : Z) :
  is_dict_or_list h data = true ->
  (exists e, json_dumps h data indent = Raise e) ->
  text_safe h = true ->
  _format_payload h data indent = py_str h data /\
  exists s, py_str h data = Ok s.
Proof.
  intros Hc [e He] Hs. split; [| now apply py_str_safe].
  apply format_payload_fallback with e; trivial.
  now apply json_dumps_raises with h data indent.
Qed.

(** X1: a dict or a list in which a container that contains itself is nested,
    at any depth, is not serialized: [json.dumps] raises and the formatter
    returns [str(data)], for every [indent]. *)
Theorem cyclic_payload_falls_back_to_str (h : heap) (data w : value) (indent : Z) :
  is_dict_or_list h data = true ->
  nested_in h data w -> contains_itself h w ->
  (exists e, json_dumps h data indent = Raise e) /\
  (text_safe h = true ->
   _format_payload h data indent = py_str h data /\
   exists s, py_str h data = Ok s).
Proof.
  intros Hc Hn Hw.
  assert (exists e, json_dumps h data indent = Raise e) as Hr.
  { apply json_dumps_raises_on_nested with w; [assumption |].
    intros. now apply iterencode_cycle. }
  split; [assumption | now apply format_payload_falls_back].
Qed.

Lemma cyclic_payload_falls_back_to_str_witness :
  _format_payload cyclic_heap (VRef 1) 2 = py_str cyclic_heap (VRef 1) /\
  py_str cyclic_heap (VRef 1) = Ok "{'self': {...}, 'list': [[...], 7]}".
Proof.
  assert (is_dict_or_list cyclic_heap (VRef 1) = true) as Hc by reflexivity.
  assert (nested_in cyclic_heap (VRef 1) (VRef 0)) as Hn.
  { apply nested_deeper with (VRef 0); [| apply nested_here].
    simpl. right. left. reflexivity. }
  assert (contains_itself cyclic_heap (VRef 0)) as Hw.
  { exists (VRef 0). split; [simpl; left; reflexivity | apply nested_here]. }
  destruct (@cyclic_payload_falls_back_to_str _ _ _ 2%Z Hc Hn Hw) as [_ Hsafe].
  destruct (Hsafe eq_refl) as [Heq _].
  split; [exact Heq | reflexivity].
Defined.

(** X2: a dict or a list in which a dict with a tuple or an instance as a key
    is nested is not serialized either ([default=str] is not applied to
    keys): the formatter returns [str(data)]. *)
Theorem unsupported_key_falls_back_to_str (h : heap) (data w : value) (indent : Z) :
  is_dict_or_list h data = true ->
  nested_in h data w -> has_unsupported_key h w = true ->
  (exists e, json_dumps h data indent = Raise e) /\
  (text_safe h = true ->
   _format_payload h data indent = py_str h data /\
   exists s, py_str h data = Ok s).
Proof.
  intros Hc Hn Hw.
  assert (exists e, json_dumps h data indent = Raise e) as Hr.
  { apply json_dumps_raises_on_nested with w; [assumption |].
    intros. now apply iterencode_unsupported_key. }
  split; [assumption | now apply format_payload_falls_back].
Qed.

Lemma unsupported_key_falls_back_to_str_witness :
  _format_payload keyed_heap (VRef 0) 2 = py_str keyed_heap (VRef 0) /\
  py_str keyed_heap (VRef 0) = Ok "{'points': {(0, 0): 'origin'}}".
Proof.
  assert (is_dict_or_list keyed_heap (VRef 0) = true) as Hc by reflexivity.
  assert (nested_in keyed_heap (VRef 0) (VRef 1)) as Hn.
  { apply nested_deeper with (VRef 1); [| apply nested_here].
    simpl. left. reflexivity. }
  assert (has_unsupported_key keyed_heap (VRef 1) = true) as Hw by reflexivity.
  destruct (@unsupported_key_falls_back_to_str _ _ _ 2%Z Hc Hn Hw) as [_ Hsafe].
  destruct (Hsafe eq_refl) as [Heq _].
  split; [exact Heq | reflexivity].
Defined.

(** ** The structured text *)

Lemma dict_set_new (name : string) (x : json) (members : list (string * json)) :
  existsb (String.eqb name) (map fst members) = false ->
  dict_set name x members = (members ++ [(name, x)])%list.
Proof.
  induction members as [| [k y] rest IH]; intros Hnew; [reflexivity |].
  cbn [map fst existsb] in Hnew. apply orb_false_iff in Hnew as [Hk Hrest].
  cbn [dict_set]. rewrite String.eqb_sym, Hk. cbn [app]. now rewrite IH.
Qed.

Lemma distinct_app_single (names : list string) (name : string) :
  distinct (names ++ [name]) = distinct names && negb (existsb (String.eqb name) names).
Proof.
  induction names as [| n rest IH]; [reflexivity |].
  rewrite <- app_comm_cons. cbn [distinct existsb].
  rewrite IH, existsb_app. cbn [existsb].
  rewrite orb_false_r, (String.eqb_sym name n).
  destruct (existsb (String.eqb n) rest), (n =? name), (distinct rest),
    (existsb (String.eqb name) rest); reflexivity.
Qed.

Lemma distinct_app_l (a b : list string) :
  distinct (a ++ b) = true -> distinct a = true.
Proof.
  induction a as [| n a IH]; [reflexivity |].
  rewrite <- app_comm_cons. cbn [distinct]. rewrite existsb_app.
  intros H. apply andb_true_iff in H as [Hn Hrest].
  apply negb_true_iff, orb_false_iff in Hn as [Hn _].
  now rewrite Hn, IH.
Qed.

Lemma dict_of_distinct_pairs (pairs members : list (string * json)) :
  distinct (map fst (members ++ pairs)) = true ->
  fold_left (fun ms kv => dict_set (fst kv) (snd kv) ms) pairs members
  = (members ++ pairs)%list.
Proof.
  revert members. induction pairs as [| [k x] rest IH]; intros members Hd.
  - now rewrite app_nil_r.
  - cbn [fold_left fst snd].
    assert ((members ++ (k, x) :: rest) = ((members ++ [(k, x)]) ++ rest))%list
      as Heq by (now rewrite <- app_assoc).
    rewrite Heq in *. rewrite dict_set_new; [now apply IH |].
    rewrite map_app in Hd.
    assert (distinct (map fst (members ++ [(k, x)])) = true) as Hpre
      by (now apply distinct_app_l with (map fst rest)).
    rewrite map_app in Hpre. cbn [map fst] in Hpre.
    rewrite distinct_app_single in Hpre.
    apply andb_true_iff in Hpre as [_ Hnew]. now apply negb_true_iff in Hnew.
Qed.

Lemma as_dicts_distinct (d : json) : distinct_names d = true -> as_dicts d = d.
Proof.
  induction d as [| b | z | s | items IH | members IH] using json_induction;
    intros Hd; try reflexivity.
  - cbn [as_dicts]. f_equal. cbn [distinct_names] in Hd.
    rewrite forallb_forall in Hd. rewrite Forall_forall in IH.
    rewrite <- (map_id items) at 2. apply map_ext_in.
    intros x Hx. apply IH; auto.
  - cbn [as_dicts]. f_equal. cbn [distinct_names] in Hd.
    apply andb_true_iff in Hd as [Hnames Hd].
    rewrite forallb_forall in Hd. rewrite Forall_forall in IH.
    assert (map (fun kv : string * json => (fst kv, as_dicts (snd kv))) members
            = members) as ->.
    { rewrite <- (map_id members) at 2. apply map_ext_in.
      intros [k x] Hx. cbn [fst snd]. f_equal.
      apply (IH (k, x) Hx). exact (Hd (k, x) Hx). }
    unfold dict_of_pairs. now rewrite dict_of_distinct_pairs.
Qed.

(** X3: whenever a dict or a list is serialized, the text the formatter
    returns is valid JSON: [json.loads] reads it, and what it reads is the
    document of the value (tuples as arrays, keys as strings, other objects
    as their [str]) with its objects as dicts: that document itself when
    the names of each object differ from one another, and otherwise with a
    repeated name at its first place and with its last value. *)
Theorem structured_text_is_valid_json (h : heap) (data : value) (indent : Z)
        (text : string) :
  is_dict_or_list h data = true ->
  json_dumps h data indent = Ok text ->
  _format_payload h data indent = Ok text /\
  exists d,
    py_document h data = Ok d /\
    py_json_loads text = Some (as_dicts d) /\
    (distinct_names d = true -> py_json_loads text = Some d).
Proof.
  intros Hc Hd. split; [now apply format_payload_serialized |].
  rewrite json_dumps_document in Hd.
  destruct (py_document h data) as [d | e]; [| discriminate].
  exists d. split; [reflexivity |].
  injection Hd as <-. unfold py_json_loads. rewrite json_loads_render.
  split; [reflexivity |]. intros Hn. now rewrite as_dicts_distinct.
Qed.

Lemma structured_text_is_valid_json_witness :
  (exists text,
      _format_payload mixed_heap (VRef 0) 2 = Ok text /\
      py_json_loads text
      = Some (JObj [("a", JInt 1);
                    ("b", JArr [JInt 1; JArr [JBool true; JStr "x"]; JNull]);
                    ("7", JStr "1.50")])) /\
  (exists text,
      _format_payload clash_heap (VRef 0) 2 = Ok text /\
      py_json_loads text = Some (JObj [("1", JStr "b")])).
Proof.
  split.
  - destruct (json_dumps mixed_heap (VRef 0) 2) as [text | e] eqn:E;
      [| discriminate E].
    exists text.
    destruct (@structured_text_is_valid_json mixed_heap (VRef 0) 2%Z text eq_refl E)
      as [Hf [d [Hd [_ Hl]]]].
    split; [exact Hf |].
    vm_compute in Hd. injection Hd as <-. apply Hl. reflexivity.
  - destruct (json_dumps clash_heap (VRef 0) 2) as [text | e] eqn:E;
      [| discriminate E].
    exists text.
    destruct (@structured_text_is_valid_json clash_heap (VRef 0) 2%Z text eq_refl E)
      as [Hf [d [Hd [Hl _]]]].
    split; [exact Hf |].
    vm_compute in Hd. injection Hd as <-. exact Hl.
Defined.

Lemma str_forall_app (p : ascii -> bool) (a b : string) :
  str_forall p (a ++ b) = str_forall p a && str_forall p b.
Proof.
  induction a as [| c a IH]; simpl; [reflexivity |].
  now rewrite IH, andb_assoc.
Qed.

Lemma str_forall_mul (p : ascii -> bool) (s : string) (n : nat) :
  str_forall p s = true -> str_forall p (str_mul s n) = true.
Proof.
  intros Hs. induction n as [| n IH]; simpl; [reflexivity |].
  now rewrite str_forall_app, Hs, IH.
Qed.

Lemma str_forall_join (p : ascii -> bool) (sep : string) (parts : list string) :
  str_forall p sep = true -> Forall (fun s => str_forall p s = true) parts ->
  str_forall p (join sep parts) = true.
Proof.
  intros Hsep. induction 1 as [| s rest Hs _ IH]; [reflexivity |].
  destruct rest as [| s' rest]; [exact Hs |].
  change (join sep (s :: s' :: rest)) with (s ++ sep ++ join sep (s' :: rest)).
  now rewrite !str_forall_app, Hs, Hsep, IH.
Qed.

Lemma str_forall_concat_map (p : ascii -> bool) (f : ascii -> string) (s : string) :
  (forall c, str_forall p (f c) = true) -> str_forall p (str_concat_map f s) = true.
Proof.
  intros Hf. induction s as [| c s IH]; simpl; [reflexivity |].
  now rewrite str_forall_app, Hf, IH.
Qed.

Lemma json_escape_char_printable (c : ascii) :
  str_forall printable (json_escape_char c) = true.
Proof. destruct c as [[|] [|] [|] [|] [|] [|] [|] [|]]; reflexivity. Qed.

Lemma encode_basestring_ascii_printable (s : string) :
  str_forall printable (encode_basestring_ascii s) = true.
Proof.
  unfold encode_basestring_ascii.
  rewrite !str_forall_app, str_forall_concat_map by apply json_escape_char_printable.
  reflexivity.
Qed.

Lemma string_of_uint_printable (u : uint) :
  str_forall printable (NilEmpty.string_of_uint u) = true.
Proof. induction u; simpl; trivial. Qed.

Lemma int_repr_printable (z : Z) : str_forall printable (int_repr z) = true.
Proof.
  unfold int_repr, NilZero.string_of_int, NilZero.string_of_uint.
  destruct (Z.to_int z) as [u | u]; destruct u; simpl; trivial;
    apply string_of_uint_printable.
Qed.

Lemma str_forall_app_true (p : ascii -> bool) (a b : string) :
  str_forall p a = true -> str_forall p b = true -> str_forall p (a ++ b) = true.
Proof. intros Ha Hb. now rewrite str_forall_app, Ha, Hb. Qed.

(** Splits a goal about a concatenation into goals about its parts. *)
Ltac printable_parts :=
  repeat match goal with
    | |- str_forall _ (_ ++ _) = true => apply str_forall_app_true
    end;
  trivial.

Lemma render_printable (width : nat) (d : json) :
  forall level, str_forall printable (render (str_mul " " width) level d) = true.
Proof.
  assert (forall level,
             str_forall printable (str_mul (str_mul " " width) level) = true)
    as Hindent by (intros; apply str_forall_mul, str_forall_mul; reflexivity).
  induction d as [| b | z | s | items IH | members IH] using json_induction;
    intros level.
  - reflexivity.
  - now destruct b.
  - apply int_repr_printable.
  - apply encode_basestring_ascii_printable.
  - destruct items as [| x items]; [reflexivity |].
    cbn [render]. cbv zeta.
    printable_parts.
    apply str_forall_join; [printable_parts |].
    apply Forall_map. revert IH. apply Forall_impl. intros d Hd. apply Hd.
  - destruct members as [| x members]; [reflexivity |].
    cbn [render]. cbv zeta.
    printable_parts.
    apply str_forall_join; [printable_parts |].
    apply Forall_map. revert IH. apply Forall_impl. intros kv Hd.
    printable_parts. apply encode_basestring_ascii_printable.
Qed.

(** X4: the text of a serialized dict or list holds line feeds and printable
    ASCII characters only, whatever characters its keys and strings hold:
    control characters and characters past the tilde are escaped. *)
Theorem structured_text_is_printable (h : heap) (data : value) (indent : Z)
        (text : string) :
  is_dict_or_list h data = true ->
  json_dumps h data indent = Ok text ->
  _format_payload h data indent = Ok text /\ str_forall printable text = true.
Proof.
  intros Hc Hd. split; [now apply format_payload_serialized |].
  rewrite json_dumps_document in Hd.
  destruct (py_document h data) as [d | e]; [| discriminate].
  injection Hd as <-. apply render_printable.
Qed.

Lemma structured_text_is_printable_witness :
  exists text,
    _format_payload control_heap (VRef 0) 2 = Ok text /\
    str_forall printable text = true /\
    contains "a\tb" text = true /\ contains "\u00e9" text = true.
Proof.
  destruct (json_dumps control_heap (VRef 0) 2) as [text | e] eqn:E;
    [| discriminate E].
  exists text.
  destruct (@structured_text_is_printable control_heap (VRef 0) 2%Z text eq_refl E)
    as [Hf Hp].
  split; [exact Hf |]. split; [exact Hp |].
  vm_compute in E. injection E as <-. split; reflexivity.
Defined.

(** ** Values within the thresholds *)

Lemma length_take_le (n : nat) (s : string) : String.length (take n s) <= n.
Proof.
  unfold take. revert n. induction s as [| c rest IH]; intros [| n]; simpl;
    try lia.
  specialize (IH n). lia.
Qed.

(** X5: the line of an entry of the payload breakdown holds at most 515
    characters after the key (500 of the value and the marker), and a value
    of at most 500 characters, 500 included, is written whole and without
    marker. *)
Theorem breakdown_line_is_bounded (h : heap) (key value : value)
        (key_text formatted : string) :
  py_str h key = Ok key_text ->
  _format_payload h value 2 = Ok formatted ->
  exists shown,
    log_breakdown_entry h (key, value)
    = _log_and_print ("      " ++ key_text ++ ": " ++ shown) Info /\
    String.length shown <= 515 /\
    (String.length formatted <= 500 -> shown = formatted).
Proof.
  intros Hk Hf. unfold log_breakdown_entry, fmt.
  rewrite (events_lift_bind _ Hf), (events_lift_bind _ Hk).
  destruct (500 <? String.length formatted)%nat eqn:E.
  - exists (take 500 formatted ++ "... [TRUNCATED]"). split; [reflexivity |].
    split.
    + rewrite str_length_app. pose proof (length_take_le 500 formatted).
      simpl String.length at 2. lia.
    + apply Nat.ltb_lt in E. lia.
  - exists formatted. split; [reflexivity |]. apply Nat.ltb_ge in E.
    split; [lia | reflexivity].
Qed.

Lemma breakdown_line_is_bounded_witness :
  exists shown,
    log_breakdown_entry long_heap (VStr "k", VStr (str_mul "a" 500))
    = _log_and_print ("      k: " ++ shown) Info /\
    shown = str_mul "a" 500.
Proof.
  destruct (@breakdown_line_is_bounded long_heap (VStr "k") (VStr (str_mul "a" 500))
              "k" (str_mul "a" 500) eq_refl eq_refl)
    as [shown [Hline [_ Hshort]]].
  exists shown. split; [exact Hline |]. apply Hshort. vm_compute. lia.
Defined.

(** X6: an attribute whose formatted value has at most 2000 characters, 2000
    included, is written whole in two messages, its name and its value, and
    these are messages of [handle_update]. *)
Theorem short_attribute_is_written_whole (h : heap) (attr_name : string)
        (attr_value : value) (formatted : string) :
  prefix "_" attr_name = false ->
  _format_payload h attr_value 2 = Ok formatted ->
  String.length formatted <= 2000 ->
  console_texts (events (log_attribute h (attr_name, attr_value)))
  = [ "      " ++ attr_name ++ ":"; "        " ++ formatted ] /\
  (text_safe h = true ->
   forall update context attrs,
     py_vars h update = Some attrs -> In (attr_name, attr_value) attrs ->
     In (Print ("      " ++ attr_name ++ ":"))
        (events (handle_update h update context)) /\
     In (Print ("        " ++ formatted))
        (events (handle_update h update context))).
Proof.
  intros Hp Hf Hlen.
  assert (log_attribute h (attr_name, attr_value)
          = (_log_and_print ("      " ++ attr_name ++ ":") Info ;;
             _log_and_print ("        " ++ formatted) Info)) as Heq.
  { unfold log_attribute. rewrite Hp. simpl negb. cbv iota.
    rewrite (events_lift_bind _ Hf).
    apply Nat.ltb_ge in Hlen. now rewrite Hlen. }
  split; [now rewrite Heq |].
  intros Hs update context attrs Hv Hin.
  split; apply attribute_emitted with attrs (attr_name, attr_value); trivial;
    rewrite Heq; find_message.
Qed.

Lemma short_attribute_is_written_whole_witness :
  String.length (str_mul "b" 2000) <= 2000 /\
  In (Print ("        " ++ str_mul "b" 2000))
     (events (handle_update full_heap (VRef 0) VNone)).
Proof.
  assert (String.length (str_mul "b" 2000) <= 2000) as Hlen
    by (vm_compute; lia).
  split; [exact Hlen |].
  destruct (@short_attribute_is_written_whole full_heap "blob"
              (VStr (str_mul "b" 2000)) (str_mul "b" 2000) eq_refl eq_refl Hlen)
    as [_ Hhook].
  apply (Hhook eq_refl (VRef 0) VNone [("blob", VStr (str_mul "b" 2000))] eq_refl).
  left. reflexivity.
Defined.

(** ** Private attributes *)

Lemma bind_ret_l {A B} (a : A) (f : A -> M B) : bind (ret a) f = f a.
Proof. unfold bind, ret. now destruct (f a). Qed.

Lemma for_each_public (h : heap) (attrs : list (string * value)) :
  for_each attrs (log_attribute h) = for_each (public_attrs attrs) (log_attribute h).
Proof.
  induction attrs as [| [name v] rest IH]; [reflexivity |].
  unfold public_attrs in *. cbn [filter fst for_each].
  destruct (prefix "_" name) eqn:E; cbn [negb].
  - unfold log_attribute at 1. rewrite E. cbn [negb]. now rewrite bind_ret_l.
  - cbn [for_each]. now rewrite IH.
Qed.

Lemma assoc_public (name : string) (attrs : list (string * value)) :
  prefix "_" name = false -> assoc name (public_attrs attrs) = assoc name attrs.
Proof.
  intros Hp. induction attrs as [| [k v] rest IH]; [reflexivity |].
  unfold public_attrs in *. cbn [filter fst assoc].
  destruct (String.eqb_spec k name) as [-> | Hne].
  - rewrite Hp. cbn [negb assoc]. now rewrite String.eqb_refl.
  - destruct (prefix "_" k); cbn [negb assoc]; [exact IH |].
    destruct (String.eqb_spec k name); [contradiction | exact IH].
Qed.

(** X7: what [handle_update] writes for an update with a [__dict__] depends
    on the class of the update and on its public attributes only: the
    attributes whose name starts with an underscore are neither written nor
    converted to text, and neither is the update itself. *)
Theorem private_attributes_are_not_logged (h : heap) (l1 l2 : loc)
        (i1 i2 : instance) (d1 d2 : list (string * value)) (context : value) :
  deref h l1 = HInst i1 -> deref h l2 = HInst i2 ->
  inst_dict i1 = Some d1 -> inst_dict i2 = Some d2 ->
  cls_name i1 = cls_name i2 -> cls_attrs i1 = cls_attrs i2 ->
  public_attrs d1 = public_attrs d2 ->
  handle_update h (VRef l1) context = handle_update h (VRef l2) context.
Proof.
  intros H1 H2 Hd1 Hd2 Hn Hc Hpub.
  assert (forall name, prefix "_" name = false ->
            py_getattr h (VRef l1) name = py_getattr h (VRef l2) name) as Hg.
  { intros name Hp. unfold py_getattr. rewrite H1, H2, Hd1, Hd2, Hc.
    now rewrite <- (@assoc_public name d1 Hp), <- (@assoc_public name d2 Hp), Hpub. }
  assert (type_name h (VRef l1) = type_name h (VRef l2)) as Ht
    by (unfold type_name; now rewrite H1, H2).
  assert (py_vars h (VRef l1) = Some d1) as Hv1
    by (unfold py_vars; now rewrite H1).
  assert (py_vars h (VRef l2) = Some d2) as Hv2
    by (unfold py_vars; now rewrite H2).
  unfold handle_update, has_truthy, hasattr, getattr.
  rewrite Ht, Hv1, Hv2, (for_each_public h d1), (for_each_public h d2), Hpub.
  rewrite !(Hg "text" eq_refl), !(Hg "status" eq_refl), !(Hg "error" eq_refl),
    !(Hg "artifacts" eq_refl).
  reflexivity.
Qed.

Lemma private_attributes_are_not_logged_witness :
  handle_update private_heap (VRef 0) VNone = handle_update private_heap (VRef 1) VNone /\
  result (handle_update private_heap (VRef 0) VNone) = Ok tt /\
  _format_payload private_heap (VRef 2) 2 = Raise (OtherException "RuntimeError").
Proof.
  split; [| split; reflexivity].
  apply (@private_attributes_are_not_logged private_heap 0 1 UpdateA UpdateB
           [("_token", VRef 2); ("text", VStr "hello")]
           [("text", VStr "hello"); ("_seen", VBool true)] VNone);
    reflexivity.
Defined.

(** ** The sections of an update *)

Lemma section_opened_app (s : update_section) (t1 t2 : list event) :
  section_opened s (t1 ++ t2) = section_opened s t1 || section_opened s t2.
Proof. unfold section_opened. now rewrite console_texts_app, existsb_app. Qed.

Lemma section_closed_app (s : update_section) (t1 t2 : list event) :
  section_closed s t1 -> section_closed s t2 -> section_closed s (t1 ++ t2).
Proof.
  unfold section_closed. intros H1 H2. now rewrite section_opened_app, H1, H2.
Qed.

Lemma section_closed_message (s : update_section) (message : string)
      (level : severity) :
  opens s message = false ->
  section_closed s (events (_log_and_print message level)).
Proof. intros H. unfold section_closed, section_opened. simpl. now rewrite H. Qed.

(** As [emits_steps], choosing the step by the shape of the computation. *)
Ltac trace_steps Hnil Happ Hlog :=
  repeat match goal with
    | |- _ (events (_log_and_print _ _)) => apply Hlog
    | |- _ (events (ret _)) => apply (emits_ret _ Hnil)
    | |- _ (events (lift _)) => apply (emits_lift _ Hnil)
    | |- _ (events (when _ _)) => apply (emits_when _ Hnil)
    | |- _ (events (for_each _ _)) => apply (emits_for_each _ Hnil Happ)
    | |- _ (events (bind _ _)) => apply (emits_bind _ Hnil Happ)
    | |- forall _, _ => intro
    | |- _ (events (match ?x with _ => _ end)) => destruct x
    | |- _ (events (let (_, _) := ?x in _)) => destruct x
    end.

Lemma section_stays_closed (h : heap) (update context : value) (s : update_section) :
  has_truthy h update (section_attribute s) = false ->
  section_closed s (events (handle_update h update context)).
Proof.
  intros Hf. unfold handle_update, fmt, log_attribute.
  destruct s; cbn [section_attribute] in Hf; rewrite Hf; cbn [when].
  all: match goal with
       | |- section_closed ?s _ =>
           trace_steps (eq_refl : section_closed s [])
                       (@section_closed_app s)
                       (@section_closed_message s)
       end.
  all: reflexivity.
Qed.

Lemma printed_in_console (message : string) (t : list event) :
  In (Print message) t -> In message (console_texts t).
Proof.
  induction t as [| e t IH]; [contradiction |].
  intros [-> | Hin]; [now left |].
  destruct e; simpl; auto.
Qed.

Lemma section_opened_by (s : update_section) (message : string) (t : list event) :
  opens s message = true -> In (Print message) t -> section_opened s t = true.
Proof.
  intros Ho Hin. apply existsb_exists. exists message.
  split; [now apply printed_in_console | assumption].
Qed.

Lemma result_update_details (h : heap) (update : value) :
  text_safe h = true ->
  result
    match py_vars h update with
    | Some attrs => for_each attrs (log_attribute h)
    | None =>
        s <- lift (_format_payload h update 2) ;;
        _log_and_print ("      Raw Update: " ++ s) Info
    end = Ok tt.
Proof.
  intros Hs. destruct (py_vars h update) as [attrs |].
  - apply result_for_each. intros x _. now apply result_log_attribute.
  - repeat result_step Hs. reflexivity.
Qed.

Lemma section_opens (h : heap) (update context : value) (s : update_section) :
  text_safe h = true ->
  has_truthy h update (section_attribute s) = true ->
  section_opened s (events (handle_update h update context)) = true.
Proof.
  intros Hs Ht.
  pose proof (@result_update_details h update Hs) as Hdetails.
  destruct (py_str_safe h (getattr h update "text" VNone) Hs) as [txt Etxt].
  destruct (py_str_safe h (getattr h update "status" VNone) Hs) as [st Est].
  destruct (py_str_safe h (getattr h update "error" VNone) Hs) as [err Eerr].
  destruct s; cbn [section_attribute] in Ht.
  - apply section_opened_by with "    TEXT CONTENT:"; [reflexivity |].
    unfold handle_update, fmt. rewrite Ht. name_attr_texts Hs. find_message.
  - apply section_opened_by with ("    STATUS: " ++ st);
      [simpl; apply prefix_nil |].
    unfold handle_update, fmt. rewrite Ht, Est, Etxt. name_attr_texts Hs.
    destruct (has_truthy h update "text"); find_message.
  - apply section_opened_by with ("    ERROR: " ++ err);
      [simpl; apply prefix_nil |].
    unfold handle_update, fmt. rewrite Ht, Est, Etxt, Eerr. name_attr_texts Hs.
    destruct (has_truthy h update "text"), (has_truthy h update "status");
      find_message.
  - apply section_opened_by with "    ARTIFACTS:"; [reflexivity |].
    unfold handle_update, fmt. rewrite Ht, Est, Etxt, Eerr. name_attr_texts Hs.
    destruct (has_truthy h update "text"), (has_truthy h update "status"),
      (has_truthy h update "error"); find_message.
Qed.

(** X8: a section of [handle_update] is written exactly when the update has
    the attribute of the section with a truthy value: an attribute that is
    missing or falsy never opens its section, and in a heap whose objects
    convert to text a truthy one always does. *)
Theorem sections_follow_the_attributes (h : heap) (update context : value)
        (s : update_section) :
  let t := events (handle_update h update context) in
  (has_truthy h update (section_attribute s) = false -> section_opened s t = false) /\
  (text_safe h = true ->
   section_opened s t = has_truthy h update (section_attribute s)).
Proof.
  intros t. subst t. split.
  - apply section_stays_closed.
  - intros Hs. destruct (has_truthy h update (section_attribute s)) eqn:E.
    + now apply section_opens.
    + now apply section_stays_closed.
Qed.

Lemma sections_follow_the_attributes_witness :
  let t := events (handle_update hook_heap (VRef 1) (VRef 0)) in
  section_opened TextSection t = true /\
  section_opened StatusSection t = true /\
  section_opened ErrorSection t = false /\
  section_opened ArtifactsSection t = false.
Proof.
  intros t. subst t.
  pose proof (fun s => sections_follow_the_attributes hook_heap (VRef 1) (VRef 0) s)
    as H.
  split; [| split; [| split]].
  - now rewrite (proj2 (H TextSection) eq_refl).
  - now rewrite (proj2 (H StatusSection) eq_refl).
  - apply (proj1 (H ErrorSection)). reflexivity.
  - apply (proj1 (H ArtifactsSection)). reflexivity.
Defined.

(** ** Updates of a built-in type *)

Lemma builtin_has_no_attribute (h : heap) (v : value) (name : string) :
  is_instance h v = false -> py_getattr h v name = None /\ py_vars h v = None.
Proof.
  unfold is_instance, py_getattr, py_vars.
  destruct v as [| | | | l]; try (now split).
  destruct (deref h l); try discriminate; now split.
Qed.

(** X9: an update that is a value of a built-in type (a dict, a list, a
    text, a number, [None]) is written as one [Raw Update] line with its
    whole formatted text, and opens no section, whatever keys it has. *)
Theorem update_of_builtin_type_is_logged_raw (h : heap) (update context : value) :
  is_instance h update = false ->
  let m := handle_update h update context in
  (forall s, section_opened s (events m) = false) /\
  (text_safe h = true ->
   result m = Ok tt /\
   exists text,
     _format_payload h update 2 = Ok text /\
     In (Print ("      Raw Update: " ++ text)) (events m)).
Proof.
  intros Hb m. subst m.
  assert (forall name, has_truthy h update name = false) as Hf.
  { intros name. unfold has_truthy, hasattr.
    now rewrite (proj1 (builtin_has_no_attribute h update name Hb)). }
  split; [intros s; apply section_stays_closed, Hf |].
  intros Hs. split.
  - apply result_handle_update; [assumption |].
    intros Ha. rewrite Hf in Ha. discriminate.
  - destruct (format_payload_safe h update 2 Hs) as [text E].
    exists text. split; [assumption |].
    unfold handle_update, fmt.
    rewrite (proj2 (builtin_has_no_attribute h update "" Hb)), E.
    name_attr_texts Hs. find_message.
Qed.

Lemma update_of_builtin_type_is_logged_raw_witness :
  let m := handle_update update_heap (VRef 0) VNone in
  section_opened TextSection (events m) = false /\
  section_opened StatusSection (events m) = false /\
  result m = Ok tt /\
  exists text,
    _format_payload update_heap (VRef 0) 2 = Ok text /\
    In (Print ("      Raw Update: " ++ text)) (events m).
Proof.
  intros m. subst m.
  destruct (@update_of_builtin_type_is_logged_raw update_heap (VRef 0) VNone eq_refl)
    as [Hclosed Hsafe].
  split; [apply Hclosed |]. split; [apply Hclosed |].
  exact (Hsafe eq_refl).
Defined.

(** ** Artifacts *)

Lemma result_guarded (b : bool) (m : M unit) :
  result m = Ok tt -> result (when b m) = Ok tt.
Proof. intros H. rewrite result_when. now destruct b. Qed.

Lemma has_truthy_value (h : heap) (v a : value) (name : string) :
  py_getattr h v name = Some a ->
  has_truthy h v name = py_truthy h a /\ getattr h v name VNone = a.
Proof. intros Hg. unfold has_truthy, hasattr, getattr. now rewrite Hg. Qed.

(** X10: when [artifacts] is a number other than zero (or [True]),
    [handle_update] raises [TypeError] at the loop over the artifacts: the
    heading of the section is the last message written, and the closing
    lines of the update are not. *)
Theorem numeric_artifacts_raise (h : heap) (update context a : value) :
  text_safe h = true ->
  py_getattr h update "artifacts" = Some a ->
  is_number a = true -> py_truthy h a = true ->
  stops_after "    ARTIFACTS:" TypeError (handle_update h update context).
Proof.
  intros Hs Hg Hn Ht.
  destruct (has_truthy_value h update "artifacts" Hg) as [Hguard Hval].
  rewrite Ht in Hguard.
  assert (py_iter h a = Raise TypeError) as Hiter
    by (destruct a; try discriminate; reflexivity).
  pose proof (@result_update_details h update Hs) as Hdetails.
  unfold handle_update, fmt. rewrite Hguard, Hval, Hiter.
  name_attr_texts Hs.
  do 16 (eapply stops_after_bind_r; [result_known | cbv beta]).
  eapply stops_after_bind_r; [exact Hdetails | cbv beta].
  do 3 (eapply stops_after_bind_r; [apply result_guarded; reflexivity | cbv beta]).
  apply stops_after_bind_l. split; [reflexivity |].
  exists (events (_log_and_print (nl ++ SEPARATOR_THIN) Info)). reflexivity.
Qed.

Lemma numeric_artifacts_raise_witness :
  result (handle_update update_heap (VRef 1) VNone) = Raise TypeError /\
  exists t0,
    events (handle_update update_heap (VRef 1) VNone)
    = (t0 ++ events (_log_and_print "    ARTIFACTS:" Info))%list.
Proof.
  exact (@numeric_artifacts_raise update_heap (VRef 1) VNone (VInt 3)
           eq_refl eq_refl eq_refl eq_refl).
Defined.

(** X11: each artifact is written on a line of its own with its whole
    formatted text (artifacts are not truncated); the artifacts of a text
    are its characters, those of a dict its keys. *)
Theorem artifacts_are_listed (h : heap) (update context : value)
        (items : list value) (artifact : value) :
  text_safe h = true ->
  has_truthy h update "artifacts" = true ->
  py_iter h (getattr h update "artifacts" VNone) = Ok items ->
  In artifact items ->
  exists text,
    _format_payload h artifact 2 = Ok text /\
    In (Print ("      - " ++ text)) (events (handle_update h update context)).
Proof.
  intros Hs Hguard Hiter Hin.
  destruct (format_payload_safe h artifact 2 Hs) as [text E].
  exists text. split; [assumption |].
  pose proof (@result_update_details h update Hs) as Hdetails.
  unfold handle_update, fmt. rewrite Hguard, Hiter.
  name_attr_texts Hs.
  do 16 (eapply emitted_bind_r; [result_known | cbv beta]).
  eapply emitted_bind_r; [exact Hdetails | cbv beta].
  do 3 (eapply emitted_bind_r; [apply result_guarded; reflexivity | cbv beta]).
  apply emitted_bind_l. unfold when at 1.
  do 3 (eapply emitted_bind_r; [result_known | cbv beta]).
  apply emitted_for_each with artifact; trivial.
  - intros y _. repeat result_step Hs. reflexivity.
  - rewrite E. find_message.
Qed.

Lemma artifacts_are_listed_witness :
  py_iter update_heap (getattr update_heap (VRef 2) "artifacts" VNone)
  = Ok [VStr "a"; VStr "b"] /\
  exists text,
    _format_payload update_heap (VStr "b") 2 = Ok text /\
    In (Print ("      - " ++ text)) (events (handle_update update_heap (VRef 2) VNone)).
Proof.
  split; [reflexivity |].
  apply (@artifacts_are_listed update_heap (VRef 2) VNone [VStr "a"; VStr "b"]
           (VStr "b") eq_refl eq_refl eq_refl).
  right. left. reflexivity.
Defined.

(** ** The error hook on an error that does not convert to text *)

(** X12: when [str(error)] raises, [on_error] raises that exception after
    four messages, the last being the type of the error: neither the
    message line nor the context nor the traceback record is written. *)
Theorem on_error_propagates_str_failure (h : heap) (error context : value)
        (e : exn) :
  py_str h error = Raise e ->
  let m := on_error h error context in
  result m = Raise e /\
  logger_texts (events m)
  = [ nl ++ SEPARATOR_THICK; "    ERROR IN GATEWAY PROCESSING"; SEPARATOR_THIN;
      "    Error Type: " ++ type_name h error ] /\
  console_texts (events m) = logger_texts (events m) /\
  ~ In traceback_record (events m).
Proof.
  intros He m. subst m. unfold on_error. rewrite He.
  split; [reflexivity |]. split; [reflexivity |]. split; [reflexivity |].
  cbn. intros H.
  repeat (destruct H as [H | H]; [discriminate H |]). exact H.
Qed.

Lemma on_error_propagates_str_failure_witness :
  result (on_error odd_heap (VRef 0) VNone) = Raise (OtherException "RuntimeError") /\
  ~ In traceback_record (events (on_error odd_heap (VRef 0) VNone)).
Proof.
  destruct (@on_error_propagates_str_failure odd_heap (VRef 0) VNone
              (OtherException "RuntimeError") eq_refl) as [Hr [_ [_ Ht]]].
  split; [exact Hr | exact Ht].
Defined.

(** ** Severity and state *)

Lemma hooks_log_at_info_message (message : string) :
  all_logged_at Info (events (_log_and_print message Info)).
Proof. reflexivity. Qed.

(** X13: [init], [prepare_task], [handle_update] and [on_task_complete] log
    at info severity only, and without [exc_info]: every record they send to
    the logger is the mirror of a printed message. *)
Theorem lifecycle_hooks_log_at_info (h : heap) :
  (forall context, all_logged_at Info (events (init h context))) /\
  (forall external_input endpoint_context,
      all_logged_at Info (events (prepare_task h external_input endpoint_context))) /\
  (forall update context,
      all_logged_at Info (events (handle_update h update context))) /\
  (forall context, all_logged_at Info (events (on_task_complete h context))).
Proof.
  split; [| split; [| split]]; intros;
    unfold init, prepare_task, handle_update, on_task_complete,
      log_breakdown_entry, log_attribute, fmt;
    trace_steps (eq_refl : all_logged_at Info [])
                (@all_logged_at_app Info)
                hooks_log_at_info_message.
  reflexivity.
Qed.

Lemma keeps_state_app (t1 t2 : list event) :
  keeps_state t1 -> keeps_state t2 -> keeps_state (t1 ++ t2).
Proof. unfold keeps_state. intros H1 H2. now rewrite existsb_app, H1, H2. Qed.

Lemma keeps_state_message (message : string) (level : severity) :
  keeps_state (events (_log_and_print message level)).
Proof. reflexivity. Qed.

(** X14: the adapter holds one piece of state, [self.context], and [init]
    alone assigns it, once, before it writes anything (so even when the
    gateway identifier then fails to convert to text); the other hooks leave
    the state as it is. *)
Theorem only_init_assigns_the_context (h : heap) :
  (forall context,
      exists rest,
        events (init h context) = SetSelfContext context :: rest /\
        keeps_state rest) /\
  (forall external_input endpoint_context,
      keeps_state (events (prepare_task h external_input endpoint_context))) /\
  (forall update context, keeps_state (events (handle_update h update context))) /\
  (forall context, keeps_state (events (on_task_complete h context))) /\
  (forall error context, keeps_state (events (on_error h error context))).
Proof.
  split.
  { intros context. unfold init. rewrite events_bind.
    eexists. split; [reflexivity |]. cbv beta iota. unfold fmt.
    change (result (emit (SetSelfContext context))) with (Ok tt). cbv iota.
    trace_steps (eq_refl : keeps_state []) keeps_state_app keeps_state_message. }
  split; [| split; [| split]]; intros;
    unfold prepare_task, handle_update, on_task_complete, on_error,
      log_breakdown_entry, log_attribute, fmt;
    trace_steps (eq_refl : keeps_state []) keeps_state_app keeps_state_message.
  reflexivity.
Qed.

(** ** The raw payload *)

(** X16: when the external input is formatted (and a truthy endpoint
    context before it), [prepare_task] writes the whole formatted text to
    both sinks as one message: the raw payload is not truncated, only the
    lines of the breakdown are; for a [str] that text is the input itself. *)
Theorem raw_payload_is_logged_whole (h : heap)
        (external_input endpoint_context : value) (text : string) :
  _format_payload h external_input 2 = Ok text ->
  (py_truthy h endpoint_context = true ->
   exists c, _format_payload h endpoint_context 2 = Ok c) ->
  let m := prepare_task h external_input endpoint_context in
  In (Print text) (events m) /\
  In (LogRecord Info text false) (events m) /\
  (forall s, external_input = VStr s -> text = s).
Proof.
  intros Hf Hctx m. subst m.
  assert (forall e : event,
             In e (events (_log_and_print text Info)) ->
             In e (events (prepare_task h external_input endpoint_context)))
    as Hin.
  { intros e He. unfold prepare_task. rewrite Hf.
    do 6 (eapply emitted_bind_r; [result_known | cbv beta]).
    eapply emitted_bind_r with (a := tt); cbv beta.
    { rewrite result_when.
      destruct (py_truthy h endpoint_context); [| reflexivity].
      destruct (Hctx eq_refl) as [c ->]. reflexivity. }
    do 3 (eapply emitted_bind_r; [result_known | cbv beta]).
    now apply emitted_bind_l. }
  split; [apply Hin; left; reflexivity |].
  split; [apply Hin; do 3 right; left; reflexivity |].
  intros s ->. cbv in Hf. now injection Hf.
Qed.

Lemma raw_payload_is_logged_whole_witness :
  In (Print "{'self': {...}, 'list': [[...], 7]}")
     (events (prepare_task cyclic_heap (VRef 1) VNone)).
Proof.
  apply (@raw_payload_is_logged_whole cyclic_heap (VRef 1) VNone
           "{'self': {...}, 'list': [[...], 7]}" eq_refl).
  intros H. discriminate H.
Defined.

(** X17: when the external input cannot be formatted, [prepare_task] raises
    the exception of the formatter at the raw payload: the separator under
    the heading of the payload is the last message written, and no task is
    built.  (The endpoint context, when it is truthy, is formatted before
    and must have been.) *)
Theorem unformattable_input_stops_prepare_task (h : heap)
        (external_input endpoint_context : value) (e : exn) :
  _format_payload h external_input 2 = Raise e ->
  (py_truthy h endpoint_context = true ->
   exists s, _format_payload h endpoint_context 2 = Ok s) ->
  stops_after SEPARATOR_THIN e (prepare_task h external_input endpoint_context).
Proof.
  intros He Hctx. unfold prepare_task. rewrite He.
  do 6 (eapply stops_after_bind_r; [result_known | cbv beta]).
  eapply stops_after_bind_r with (a := tt); cbv beta.
  { rewrite result_when. destruct (py_truthy h endpoint_context); [| reflexivity].
    destruct (Hctx eq_refl) as [s ->]. reflexivity. }
  eapply stops_after_bind_r; [result_known | cbv beta].
  split; [reflexivity |].
  exists []. reflexivity.
Qed.

Lemma unformattable_input_stops_prepare_task_witness :
  result (prepare_task odd_heap (VRef 0) (VRef 3))
  = Raise (OtherException "RuntimeError").
Proof.
  apply (@unformattable_input_stops_prepare_task odd_heap (VRef 0) (VRef 3)
           (OtherException "RuntimeError") eq_refl).
  intros _. exists "(1, 2)". reflexivity.
Defined.

(** ** Identifiers that are present *)

(** X18: an identifier the context has is written as its [str], in the line
    where its placeholder would be. *)
Theorem present_identifiers_are_written (h : heap) (context : value)
        (name : string) (v : value) :
  text_safe h = true ->
  py_getattr h context name = Some v ->
  exists s,
    py_str h v = Ok s /\
    (name = "gateway_id" ->
     In (Print ("    Gateway ID: " ++ s)) (events (init h context))) /\
    (name = "session_id" ->
     In (Print ("      Session ID: " ++ s)) (events (on_task_complete h context)) /\
     forall update,
       In (Print ("      Session ID: " ++ s)) (events (handle_update h update context))) /\
    (name = "task_id" ->
     In (Print ("      Task ID: " ++ s)) (events (on_task_complete h context)) /\
     forall update,
       In (Print ("      Task ID: " ++ s)) (events (handle_update h update context))) /\
    (name = "user_id" ->
     forall update,
       In (Print ("      User ID: " ++ s)) (events (handle_update h update context))).
Proof.
  intros Hs Hg. destruct (py_str_safe h v Hs) as [s E]. exists s.
  split; [assumption |].
  split; [| split; [| split]]; intros ->; repeat split; intros;
    unfold init, on_task_complete, handle_update, fmt;
    rewrite (getattr_present _ _ _ _ Hg), E;
    name_attr_texts Hs; find_message.
Qed.

Lemma present_identifiers_are_written_witness :
  In (Print "      Task ID: 42") (events (on_task_complete error_heap (VRef 1))).
Proof.
  destruct (@present_identifiers_are_written error_heap (VRef 1) "task_id" (VInt 42)
              eq_refl eq_refl) as [s [Hstr [_ [_ [Htask _]]]]].
  injection Hstr as <-. exact (proj1 (Htask eq_refl)).
Defined.

(** ** Payloads that are serialized *)

Lemma nested_in_item (h : heap) (a b c : value) :
  nested_in h a b -> In c (items_of h b) -> nested_in h a c.
Proof.
  induction 1 as [v | v x w Hx _ IH]; intros Hc.
  - apply nested_deeper with c; [assumption | apply nested_here].
  - apply nested_deeper with x; [assumption | now apply IH].
Qed.

Lemma raises_only_fmap_seq_in {A B} (P : exn -> Prop) (f : A -> fueled B)
      (xs : list A) :
  (forall x, In x xs -> raises_only P (f x)) -> raises_only P (fmap_seq f xs).
Proof.
  induction xs as [| x rest IH]; intros Hf.
  - apply raises_only_fret.
  - cbn [fmap_seq]. apply raises_only_fbind; [apply Hf; now left |].
    intros y. apply raises_only_fbind; [| intros; apply raises_only_fret].
    apply IH. intros x' Hin. apply Hf. now right.
Qed.

Lemma encloses_item (h : heap) (path : list loc) (l : loc) (c : value) :
  encloses h path (VRef l) -> In c (items_of h (VRef l)) ->
  encloses h (l :: path) c.
Proof.
  intros Henc Hc l' Hl'. rewrite on_path_cons in Hl'.
  destruct (Nat.eqb_spec l' l) as [Heq | Hne].
  - subst l'. exists c. split; [assumption | apply nested_here].
  - destruct (Henc l' Hl') as [c0 [Hc0 Hn]].
    exists c0. split; [assumption | now apply nested_in_item with (VRef l)].
Qed.

Lemma iterencode_acyclic (h : heap) (data : value) (indent : string) :
  text_safe h = true ->
  (forall w, nested_in h data w ->
             has_unsupported_key h w = false /\ ~ contains_itself h w) ->
  forall fuel path level v,
    nested_in h data v -> encloses h path v ->
    raises_only (fun _ => False) (iterencode h indent fuel path level v).
Proof.
  intros Hs Hgood.
  induction fuel as [| f IH]; intros path level v Hn Henc e He.
  all: destruct v as [| [|] | z | s | l]; cbn [iterencode] in He; try discriminate.
  all: destruct (Hgood _ Hn) as [Hkeys Hacyclic].
  all: assert (on_path l path = true -> False) as Hoff
      by (intros Hon; apply Hacyclic; exact (Henc l Hon)).
  all: destruct (deref h l) as [items | items | entries | i] eqn:Hd.
  all: try (destruct (text_safe_deref h l Hs Hd) as [[s Hstr] _];
            rewrite Hstr in He; discriminate).
  all: try (destruct items as [| x items]; [discriminate |]).
  all: try (destruct entries as [| x entries]; [discriminate |]).
  all: cbn [is_empty] in He;
    destruct (on_path l path); [exfalso; now apply Hoff | try discriminate].
  all: revert e He; apply raises_only_fbind;
    [| intros; apply raises_only_fret];
    apply raises_only_fmap_seq_in; intros c Hc.
  - apply IH.
    + apply nested_in_item with (VRef l); trivial. cbn [items_of]. now rewrite Hd.
    + apply encloses_item; trivial. cbn [items_of]. now rewrite Hd.
  - apply IH.
    + apply nested_in_item with (VRef l); trivial. cbn [items_of]. now rewrite Hd.
    + apply encloses_item; trivial. cbn [items_of]. now rewrite Hd.
  - assert (In (snd c) (items_of h (VRef l))) as Hitem
      by (cbn [items_of]; rewrite Hd; now apply in_map).
    apply raises_only_fbind.
    + intros e He. injection He as He.
      unfold has_unsupported_key in Hkeys. rewrite Hd in Hkeys.
      assert (existsb (fun kv : value * value =>
                         match fst kv with VRef _ => true | _ => false end)
                      (x :: entries) = true) as Hex; [| congruence].
      apply existsb_exists. exists c. split; [assumption |].
      destruct (fst c) as [| [|] | | |]; try discriminate He. reflexivity.
    + intros key. apply raises_only_fbind; [| intros; apply raises_only_fret].
      apply IH.
      * now apply nested_in_item with (VRef l).
      * now apply encloses_item.
Qed.

(** X19: the obstacles of X1 and X2 and the limit on the conversion of an
    [int] are the only ones: in a heap whose objects convert to text, a dict
    or a list in which no container contains itself, no dict has a tuple or
    an instance as key, and no [int], key or value, has more than 4300
    digits, is serialized, shared containers included, and the formatter
    returns the layout of its document. *)
Theorem acyclic_payload_is_serialized (h : heap) (data : value) (indent : Z) :
  text_safe h = true ->
  (forall w, nested_in h data w ->
             has_unsupported_key h w = false /\ has_long_int h w = false /\
             ~ contains_itself h w) ->
  exists d,
    py_document h data = Ok d /\
    json_dumps h data indent = Ok (render (str_mul " " (Z.to_nat indent)) 0 d) /\
    (is_dict_or_list h data = true ->
     _format_payload h data indent
     = Ok (render (str_mul " " (Z.to_nat indent)) 0 d)).
Proof.
  intros Hs Hgood'.
  assert (forall w, nested_in h data w ->
                    has_unsupported_key h w = false /\ ~ contains_itself h w)
    as Hgood by (intros w Hw; destruct (Hgood' w Hw) as [Hk [_ Hc]]; now split).
  assert (exists t, json_dumps h data indent = Ok t) as [t E].
  { destruct (json_dumps h data indent) as [t | e] eqn:E; [now exists t |].
    exfalso.
    destruct (fuel_enough h data indent) as [_ Hfuel]. rewrite E in Hfuel.
    apply (@iterencode_acyclic h data (str_mul " " (Z.to_nat indent)) Hs Hgood
             (length h) [] 0 data (nested_here h data)) with e; [| exact Hfuel].
    intros l Hl. discriminate Hl. }
  pose proof E as E'. rewrite json_dumps_document in E'.
  destruct (py_document h data) as [d | e]; [| discriminate].
  exists d. injection E' as <-. split; [reflexivity |].
  split; [exact E |]. intros Hc. now apply format_payload_serialized.
Qed.

(** Enumerates what is nested in a value of a concrete heap. *)
Ltac enumerate_nested :=
  repeat match goal with
    | H : In _ (items_of _ _) |- _ => progress simpl in H
    | H : _ \/ _ |- _ => destruct H as [H | H]; [try subst |]
    | H : False |- _ => contradiction H
    | H : nested_in _ ?v _ |- _ =>
        tryif is_var v then fail else (inversion H; clear H; subst)
    end.

Lemma acyclic_payload_is_serialized_witness :
  text_safe shared_heap = true /\
  _format_payload shared_heap (VRef 0) 2
  = Ok (render "  " 0 (JArr [JArr [JInt 1; JInt 2]; JArr [JInt 1; JInt 2]])).
Proof.
  split; [reflexivity |].
  assert (forall w, nested_in shared_heap (VRef 0) w ->
                    has_unsupported_key shared_heap w = false /\
                    has_long_int shared_heap w = false /\
                    ~ contains_itself shared_heap w) as Hgood.
  { intros w Hn. enumerate_nested.
    all: split; [reflexivity |]; split; [reflexivity |];
      intros [c [Hc Hn]]; enumerate_nested; discriminate. }
  destruct (@acyclic_payload_is_serialized shared_heap (VRef 0) 2 eq_refl Hgood)
    as [d [Hd [_ Hf]]].
  rewrite (Hf eq_refl). vm_compute in Hd. now injection Hd as <-.
Defined.

(** ** Keys that are not text *)

Lemma forall2_in_r {A B} (R : A -> B -> Prop) (xs : list A) (ys : list B) (y : B) :
  Forall2 R xs ys -> In y ys -> exists x, In x xs /\ R x y.
Proof.
  induction 1 as [| x y' xs ys Hxy _ IH]; intros Hin; [contradiction |].
  destruct Hin as [-> | Hin].
  - exists x. split; [now left | assumption].
  - destruct (IH Hin) as [x' [Hx' HR]]. exists x'. split; [now right | assumption].
Qed.

Lemma same_data_needs_text_keys (h : heap) (l : loc) (entries : list (value * value))
      (k x : value) (d : json) :
  deref h l = HDict entries -> In (k, x) entries -> is_str k = false ->
  same_data h d (VRef l) = false.
Proof.
  intros Hd Hin Hk.
  destruct (same_data h d (VRef l)) eqn:E; [| reflexivity].
  exfalso.
  destruct d as [| b | z | s | ds | ms]; try discriminate E.
  - cbn [same_data] in E. rewrite Hd in E. discriminate.
  - apply same_data_obj in E as [l' [entries' [Hl [Hd' Hall]]]].
    injection Hl as <-. rewrite Hd in Hd'. injection Hd' as <-.
    destruct (@forall2_in_r _ _ _ _ _ _ Hall Hin) as [m [_ [Hkey _]]].
    cbn [fst] in Hkey. subst k. discriminate.
Qed.

(** X20: the round trip gives the dict back only when its keys are text: a
    dict with a key that is an [int], a [bool] or [None] is serialized, but
    what [json.loads] reads from the text is not the same data (the key has
    become a text). *)
Theorem other_keys_do_not_round_trip (h : heap) (l : loc)
        (entries : list (value * value)) (k x : value) (indent : Z) (text : string) :
  deref h l = HDict entries -> In (k, x) entries -> is_str k = false ->
  json_dumps h (VRef l) indent = Ok text ->
  _format_payload h (VRef l) indent = Ok text /\
  exists d, json_loads text = Some d /\ same_data h d (VRef l) = false.
Proof.
  intros Hd Hin Hk Hdump.
  assert (is_dict_or_list h (VRef l) = true) as Hc
    by (unfold is_dict_or_list; now rewrite Hd).
  split; [now apply format_payload_serialized |].
  rewrite json_dumps_document in Hdump.
  destruct (py_document h (VRef l)) as [d | e]; [| discriminate].
  exists d. injection Hdump as <-.
  split; [apply json_loads_render | now apply same_data_needs_text_keys with entries k x].
Qed.

Lemma other_keys_do_not_round_trip_witness :
  exists text,
    _format_payload shared_heap (VRef 2) 2 = Ok text /\
    json_loads text = Some (JObj [("1", JStr "one")]) /\
    same_data shared_heap (JObj [("1", JStr "one")]) (VRef 2) = false.
Proof.
  destruct (json_dumps shared_heap (VRef 2) 2) as [text | e] eqn:E;
    [| discriminate E].
  exists text.
  destruct (@other_keys_do_not_round_trip shared_heap 2 [(VInt 1, VStr "one")]
              (VInt 1) (VStr "one") 2 text eq_refl (or_introl eq_refl) eq_refl E)
    as [Hf [d [Hl Hdiff]]].
  split; [exact Hf |].
  vm_compute in E. injection E as <-.
  vm_compute in Hl. injection Hl as <-.
  split; [reflexivity | exact Hdiff].
Defined.
